(** * libpdx_uds service endpoint: channel table, receive / reply protocol
      and handle references

    Shallow embedding of [libs/vr/libpdx_uds/service_endpoint.cpp]:
    the per-message state ([MessageState]), the channel table of
    [Endpoint] ([channels_], [channel_fd_to_id_], [last_channel_id_]) and
    the receive / reply sequences, with the kernel's answers to the system
    calls supplied by an oracle and every issued call recorded in a log. *)

From Stdlib Require Import ZArith Lia Bool.
From Stdlib Require Import Init.Byte.
From stdpp Require Import base option list gmap fin_maps.

Local Open Scope Z_scope.

(** ** Machine integers *)

Definition INT32_MAX : Z := 2147483647.
Definition INT16_MAX : Z := 32767.

(** Two's-complement reduction of a mathematical integer to [int32_t]. *)
Definition to_int32 (z : Z) : Z := (z + 2 ^ 31) mod 2 ^ 32 - 2 ^ 31.

(** Two's-complement reduction of a mathematical integer to [int16_t]. *)
Definition to_int16 (z : Z) : Z := (z + 2 ^ 15) mod 2 ^ 16 - 2 ^ 15.

(** Reduction to [uint32_t]. *)
Definition to_uint32 (z : Z) : Z := z mod 2 ^ 32.

(** ** errno values (Linux / bionic)

    A failed call always leaves a strictly positive [errno], and a
    [Status] whose error is 0 is by definition a success, so error codes
    are [positive]. *)

Definition errno := positive.

Definition EFAULT : errno := 14%positive.
Definition EBADF : errno := 9%positive.
Definition EINVAL : errno := 22%positive.
Definition ESHUTDOWN : errno := 108%positive.
Definition ETIMEDOUT : errno := 110%positive.

(** Modelled from the spec: [pdx::Status<T>] (pdx/status.h, not part of the
    translated file) holds a value or an error code. *)
Inductive Status (A : Type) : Type :=
| Ok (a : A)
| ErrorStatus (e : errno).
Arguments Ok {A} a.
Arguments ErrorStatus {A} e.

Definition status_ok {A} (s : Status A) : bool :=
  match s with Ok _ => true | ErrorStatus _ => false end.

(** ** epoll event bits *)

Definition EPOLLIN : Z := 1.
Definition EPOLLHUP : Z := 16.
Definition EPOLLRDHUP : Z := 8192.
Definition EPOLLONESHOT : Z := 1073741824.

(** The interest mask used for the listening socket and for every channel
    socket: [EPOLLIN | EPOLLRDHUP | EPOLLONESHOT]. *)
Definition oneshot_events : Z := Z.lor (Z.lor EPOLLIN EPOLLRDHUP) EPOLLONESHOT.

(** ** Handles

    Modelled from the spec: the handle classes (pdx/file_handle.h,
    pdx/channel_handle.h) are not part of the translated file.
    [LocalHandle] is the owned and [BorrowedHandle] the borrowed view of a
    descriptor number; a handle is valid ([operator bool]) when the number
    is not negative, and a negative number is the sentinel or error the
    handle carries.  Ownership is transferred by move, which leaves the
    source handle empty. *)

Definition LocalHandle := Z.
Definition BorrowedHandle := Z.

Definition IsValid (h : Z) : bool := 0 <=? h.

(** [LocalChannelHandle]: the manager it belongs to (null or not) and its
    value. *)
Record LocalChannelHandle : Type := mkLocalChannelHandle {
  manager : bool;
  value : Z
}.

(** [ChannelInfo<FileHandleType>]: the socket and event descriptors of a
    channel carried by a message. *)
Record ChannelInfo : Type := mkChannelInfo {
  ci_data_fd : Z;
  ci_event_fd : Z
}.

(** Declarations of the pdx headers that the endpoint uses and that are
    not part of the translated file: the reserved opcodes
    ([pdx::opcodes]), the message id shared by impulses
    ([Message::IMPULSE_MESSAGE_ID]), the descriptor number of an empty
    (default-constructed or moved-from) file handle, the value of an empty
    channel handle, and [ChannelManager::CreateHandle].  They are taken as
    parameters; the two opcodes are distinct enumerators and an empty
    handle is not valid. *)
Class PdxHeaders : Type := {
  CHANNEL_OPEN : Z;
  CHANNEL_CLOSE : Z;
  IMPULSE_MESSAGE_ID : Z;
  kEmptyFileHandle : Z;
  kEmptyHandle : Z;
  CreateHandle : LocalHandle → LocalHandle → LocalChannelHandle;
  opcodes_distinct : CHANNEL_OPEN ≠ CHANNEL_CLOSE;
  kEmptyFileHandle_invalid : kEmptyFileHandle < 0
}.

(** The values of the upstream headers: [CHANNEL_OPEN = -1],
    [CHANNEL_CLOSE = -2], [IMPULSE_MESSAGE_ID = -1], empty handles carry
    [-1], and [CreateHandle] names the new handle after its socket when
    both descriptors are valid. *)
#[refine] Instance upstream_headers : PdxHeaders := {|
  CHANNEL_OPEN := -1;
  CHANNEL_CLOSE := -2;
  IMPULSE_MESSAGE_ID := -1;
  kEmptyFileHandle := -1;
  kEmptyHandle := -1;
  CreateHandle := λ data_fd event_fd,
    if IsValid data_fd && IsValid event_fd
    then mkLocalChannelHandle true data_fd
    else mkLocalChannelHandle false (-1)
|}.
Proof. all: lia. Defined.

(** ** Wire headers

    The fields of [RequestHeader] and [ResponseHeader] (uds/ipc_helper.h)
    that the endpoint reads and writes. *)

Record ucred : Type := mkUcred { cred_pid : Z; cred_uid : Z; cred_gid : Z }.

(** [RequestHeader<LocalHandle>]. *)
Record RequestHeader : Type := mkRequestHeader {
  rq_op : Z;
  rq_cred : ucred;
  rq_send_len : Z;
  rq_max_recv_len : Z;
  rq_file_descriptors : list LocalHandle;
  rq_channels : list ChannelInfo;
  rq_impulse_payload : list byte;
  rq_is_impulse : bool
}.

(** [ResponseHeader<BorrowedHandle>]. *)
Record ResponseHeader : Type := mkResponseHeader {
  ret_code : Z;
  recv_len : Z;
  rs_file_descriptors : list BorrowedHandle;
  rs_channels : list ChannelInfo
}.

Definition default_request : RequestHeader :=
  mkRequestHeader 0 (mkUcred 0 0 0) 0 0 [] [] [] false.

Definition default_response : ResponseHeader := mkResponseHeader 0 0 [] [].

(** ** Per-message state *)

Record MessageState : Type := mkMessageState {
  request : RequestHeader;
  response : ResponseHeader;
  sockets_to_close : list LocalHandle;
  request_data : list byte;
  request_data_read_pos : Z;
  response_data : list byte
}.

(** [new MessageState]. *)
Definition AllocateMessageState : MessageState :=
  mkMessageState default_request default_response [] [] 0 [].

Definition set_request (r : RequestHeader) (st : MessageState) : MessageState :=
  mkMessageState r (response st) (sockets_to_close st) (request_data st)
    (request_data_read_pos st) (response_data st).

Definition set_response (r : ResponseHeader) (st : MessageState) : MessageState :=
  mkMessageState (request st) r (sockets_to_close st) (request_data st)
    (request_data_read_pos st) (response_data st).

Definition set_sockets_to_close (l : list LocalHandle) (st : MessageState)
  : MessageState :=
  mkMessageState (request st) (response st) l (request_data st)
    (request_data_read_pos st) (response_data st).

Definition set_request_data (d : list byte) (st : MessageState) : MessageState :=
  mkMessageState (request st) (response st) (sockets_to_close st) d
    (request_data_read_pos st) (response_data st).

Definition set_response_data (d : list byte) (st : MessageState) : MessageState :=
  mkMessageState (request st) (response st) (sockets_to_close st)
    (request_data st) (request_data_read_pos st) d.

Definition set_rq_file_descriptors (l : list LocalHandle) (r : RequestHeader)
  : RequestHeader :=
  mkRequestHeader (rq_op r) (rq_cred r) (rq_send_len r) (rq_max_recv_len r)
    l (rq_channels r) (rq_impulse_payload r) (rq_is_impulse r).

Definition set_rq_channels (l : list ChannelInfo) (r : RequestHeader)
  : RequestHeader :=
  mkRequestHeader (rq_op r) (rq_cred r) (rq_send_len r) (rq_max_recv_len r)
    (rq_file_descriptors r) l (rq_impulse_payload r) (rq_is_impulse r).

Definition set_rs_file_descriptors (l : list BorrowedHandle) (r : ResponseHeader)
  : ResponseHeader :=
  mkResponseHeader (ret_code r) (recv_len r) l (rs_channels r).

Definition set_rs_channels (l : list ChannelInfo) (r : ResponseHeader)
  : ResponseHeader :=
  mkResponseHeader (ret_code r) (recv_len r) (rs_file_descriptors r) l.

Section MessageState.
Context `{PdxHeaders}.

(** [MessageState::GetLocalFileHandle(index, handle)].  The result is
    the returned flag, the handle the out-parameter holds afterwards and
    the state.  Move-assigning from [request.file_descriptors[index]]
    transfers the descriptor and leaves that element empty. *)
Definition GetLocalFileHandle (index : Z) (handle : LocalHandle)
    (st : MessageState) : bool * LocalHandle * MessageState :=
  let fds := rq_file_descriptors (request st) in
  if index <? 0 then
    (true, index, st)
  else if index <? Z.of_nat (length fds) then
    match fds !! Z.to_nat index with
    | Some fd =>
        (true, fd,
         set_request
           (set_rq_file_descriptors
              (<[Z.to_nat index := kEmptyFileHandle]> fds) (request st)) st)
    | None => (false, handle, st)
    end
  else
    (false, handle, st).

(** [MessageState::GetLocalChannelHandle(index, handle)]. *)
Definition GetLocalChannelHandle (index : Z) (handle : LocalChannelHandle)
    (st : MessageState) : bool * LocalChannelHandle * MessageState :=
  let chans := rq_channels (request st) in
  if index <? 0 then
    (true, mkLocalChannelHandle false index, st)
  else if index <? Z.of_nat (length chans) then
    match chans !! Z.to_nat index with
    | Some channel_info =>
        (true,
         CreateHandle (ci_data_fd channel_info) (ci_event_fd channel_info),
         set_request
           (set_rq_channels
              (<[Z.to_nat index :=
                   mkChannelInfo kEmptyFileHandle kEmptyFileHandle]> chans)
              (request st)) st)
    | None => (false, handle, st)
    end
  else
    (false, handle, st).

(** [MessageState::PushFileHandle(BorrowedHandle)].  The result is a
    [Status<FileReference>], and [FileReference] is [int16_t]
    (pdx/file_handle.h): both returned values are converted to 16 bits.
    An invalid handle is answered with the number it carries
    ([handle.Get()], an [int]), as a value; otherwise the handle is
    appended and its index returned ([size() - 1], a [size_t]). *)
Definition PushFileHandle (handle : BorrowedHandle) (st : MessageState)
  : Status Z * MessageState :=
  if negb (IsValid handle) then
    (Ok (to_int16 handle), st)
  else
    let fds := rs_file_descriptors (response st) ++ [handle] in
    (Ok (to_int16 (Z.of_nat (length fds) - 1)),
     set_response (set_rs_file_descriptors fds (response st)) st).

(** [MessageState::PushChannelHandle(BorrowedHandle data_fd,
    BorrowedHandle event_fd)].  The result is a [Status<ChannelReference>],
    and [ChannelReference] is [int32_t] (pdx/channel_handle.h). *)
Definition PushChannelHandle (data_fd event_fd : BorrowedHandle)
    (st : MessageState) : Status Z * MessageState :=
  if negb (IsValid data_fd) || negb (IsValid event_fd) then
    (ErrorStatus EINVAL, st)
  else
    let chans := rs_channels (response st) ++ [mkChannelInfo data_fd event_fd] in
    (Ok (to_int32 (Z.of_nat (length chans) - 1)),
     set_response (set_rs_channels chans (response st)) st).

End MessageState.

(** ** Messages *)

(** [MessageInfo].  Pointers ([service], [channel]) are addresses, 0 for
    [nullptr]. *)
Record MessageInfo : Type := mkMessageInfo {
  pid : Z;
  tid : Z;
  cid : Z;
  mid : Z;
  euid : Z;
  egid : Z;
  op : Z;
  flags : Z;
  service : Z;
  channel : Z;
  send_len : Z;
  recv_len_info : Z;
  fd_count : Z;
  impulse : list byte
}.

(** A [Message] and the [MessageState] it owns ([message->GetState()]). *)
Record Message : Type := mkMessage {
  info : MessageInfo;
  state : MessageState
}.

(** [Message{info}]: a message with freshly allocated state. *)
Definition new_Message (i : MessageInfo) : Message :=
  mkMessage i AllocateMessageState.

Definition set_state (st : MessageState) (m : Message) : Message :=
  mkMessage (info m) st.

(** ** The endpoint *)

(** [Endpoint::ChannelData]: the owned socket, the event descriptor of its
    [event_set] and the service's per-channel state. *)
Record ChannelData : Type := mkChannelData {
  data_fd : LocalHandle;
  event_fd : LocalHandle;
  channel_state : Z
}.

Inductive EpollOp : Type := EPOLL_CTL_ADD | EPOLL_CTL_DEL | EPOLL_CTL_MOD.

(** The system calls and transport calls the endpoint issues. *)
Inductive Syscall : Type :=
| sys_epoll_wait (timeout : Z)
| sys_epoll_ctl (o : EpollOp) (fd : Z) (events : Z)
| sys_accept4 (listen_fd : Z)
| sys_setsockopt_passcred (fd : Z)
| sys_socketpair
| sys_recv_request (fd : Z)
| sys_recv_payload (fd : Z) (len : Z)
| sys_send_response (fd : Z) (hdr : ResponseHeader)
| sys_send_payload (fd : Z) (data : list byte).

(** What [epoll_wait(epoll_fd_, &event, 1, timeout)] gives back (after
    [RETRY_EINTR]): a negative count, zero, or one event. *)
Inductive epoll_wait_result : Type :=
| wait_failed (e : errno)
| wait_nothing
| wait_event (fd : Z) (events : Z).

(** The kernel's and the peer's answers during one operation.  [accept4]
    and [socketpair] answer with the descriptors and the [errno] of a
    failure; calls that return 0 or -1 answer with [None] or the [errno];
    [ReceiveData] and [SendData] of the transport answer with a [Status].
    [k_eventfd] is the event descriptor the [ChannelEventSet] of a new
    [ChannelData] opens.  No operation issues the same call twice with the
    same arguments, so one answer per call and argument is enough. *)
Record Kernel : Type := mkKernel {
  k_epoll_wait : epoll_wait_result;
  k_accept4 : Z * errno;
  k_setsockopt : Z → option errno;
  k_socketpair : option errno * Z * Z;
  k_eventfd : Z;
  k_epoll_ctl : EpollOp → Z → option errno;
  k_recv_request : Z → Status RequestHeader;
  k_recv_payload : Z → Z → Status (list byte);
  k_send_response : Z → ResponseHeader → Status ();
  k_send_payload : Z → list byte → Status ()
}.

(** The data members of [Endpoint] that its member functions use, and the
    log of the calls issued so far (oldest first). *)
Record Endpoint : Type := mkEndpoint {
  is_blocking_ : bool;
  socket_fd_ : LocalHandle;
  cancel_event_fd_ : LocalHandle;
  epoll_fd_ : LocalHandle;
  channels_ : gmap Z ChannelData;
  channel_fd_to_id_ : gmap Z Z;
  last_channel_id_ : Z;
  service_ : Z;
  next_message_id_ : Z;
  syscalls : list Syscall
}.

Definition set_channels (chans : gmap Z ChannelData) (fds : gmap Z Z)
    (last : Z) (s : Endpoint) : Endpoint :=
  mkEndpoint (is_blocking_ s) (socket_fd_ s) (cancel_event_fd_ s) (epoll_fd_ s)
    chans fds last (service_ s) (next_message_id_ s) (syscalls s).

Definition set_next_message_id (n : Z) (s : Endpoint) : Endpoint :=
  mkEndpoint (is_blocking_ s) (socket_fd_ s) (cancel_event_fd_ s) (epoll_fd_ s)
    (channels_ s) (channel_fd_to_id_ s) (last_channel_id_ s) (service_ s) n
    (syscalls s).

Definition set_syscalls (l : list Syscall) (s : Endpoint) : Endpoint :=
  mkEndpoint (is_blocking_ s) (socket_fd_ s) (cancel_event_fd_ s) (epoll_fd_ s)
    (channels_ s) (channel_fd_to_id_ s) (last_channel_id_ s) (service_ s)
    (next_message_id_ s) l.

(** ** The monad of endpoint operations

    An operation reads and updates the endpoint; [None] stands for an
    operation that never returns (the id scan of [OnNewChannelLocked] on a
    full table). *)

Definition M (A : Type) : Type := Endpoint → option (A * Endpoint).

#[global] Instance M_ret : MRet M := λ A a s, Some (a, s).

#[global] Instance M_bind : MBind M := λ A B f m s,
  match m s with
  | Some (a, s') => f a s'
  | None => None
  end.

Definition gets {A} (f : Endpoint → A) : M A := λ s, Some (f s, s).

Definition modify (f : Endpoint → Endpoint) : M () := λ s, Some ((), f s).

Definition diverge {A} : M A := λ _, None.

(** Issue a call: append it to the log. *)
Definition issue (c : Syscall) : M () :=
  modify (λ s, set_syscalls (syscalls s ++ [c]) s).

Definition of_errno (r : option errno) : Status () :=
  match r with
  | Some e => ErrorStatus e
  | None => Ok ()
  end.

(** [std::map::emplace]: insert unless the key is already present. *)
Definition map_emplace `{Countable K} {V} (k : K) (v : V) (m : gmap K V)
  : gmap K V :=
  match m !! k with
  | Some _ => m
  | None => <[k := v]> m
  end.

(** The [for (;;)] loop of [OnNewChannelLocked], run for at most [fuel]
    iterations: advance [last_channel_id_] (from [INT32_MAX] to 1) and stop
    at the first id that is not a key of [channels_]. *)
Fixpoint scan_channel_id (fuel : nat) (last : Z) (chans : gmap Z ChannelData)
  : option Z :=
  match fuel with
  | O => None
  | S fuel' =>
      let last' := if last =? INT32_MAX then 1 else to_int32 (last + 1) in
      match chans !! last' with
      | None => Some last'
      | Some _ => scan_channel_id fuel' last' chans
      end
  end.

Section EndpointOps.
Context `{PdxHeaders}.
Variable k : Kernel.

Definition epoll_ctl (o : EpollOp) (fd : Z) (events : Z) : M (option errno) :=
  issue (sys_epoll_ctl o fd events);;
  mret (k_epoll_ctl k o fd).

(** Modelled from the spec: [GetNextAvailableMessageId] is defined in the
    class declaration, which is not part of the translated file; message
    ids increase per endpoint, so it hands out the [uint32_t] counter
    [next_message_id_] and advances it. *)
Definition GetNextAvailableMessageId : M Z :=
  n ← gets next_message_id_;
  modify (set_next_message_id (to_uint32 (n + 1)));;
  mret n.

Definition GetChannelState (channel_id : Z) : M Z :=
  gets (λ s, match channels_ s !! channel_id with
             | Some cd => channel_state cd
             | None => 0
             end).

Definition GetChannelSocketFd (channel_id : Z) : M BorrowedHandle :=
  gets (λ s, match channels_ s !! channel_id with
             | Some cd => data_fd cd
             | None => kEmptyFileHandle
             end).

Definition GetChannelEventFd (channel_id : Z) : M BorrowedHandle :=
  gets (λ s, match channels_ s !! channel_id with
             | Some cd => event_fd cd
             | None => kEmptyFileHandle
             end).

Definition GetChannelId (channel_fd : BorrowedHandle) : M Z :=
  gets (λ s, match channel_fd_to_id_ s !! channel_fd with
             | Some id => id
             | None => -1
             end).

(** [Endpoint::OnNewChannelLocked].  The scan is given one iteration more
    than [channels_] has entries ([scan_channel_id_enough] shows that more
    would change nothing). *)
Definition OnNewChannelLocked (channel_fd : LocalHandle) (chan_state : Z)
  : M (Status (Z * ChannelData)) :=
  r ← epoll_ctl EPOLL_CTL_ADD channel_fd oneshot_events;
  match r with
  | Some e => mret (ErrorStatus e)
  | None =>
      let channel_data := mkChannelData channel_fd (k_eventfd k) chan_state in
      s ← gets id;
      match scan_channel_id (S (size (channels_ s))) (last_channel_id_ s)
              (channels_ s) with
      | None => diverge
      | Some new_id =>
          modify (set_channels
                    (<[new_id := channel_data]> (channels_ s))
                    (map_emplace (data_fd channel_data) new_id
                       (channel_fd_to_id_ s))
                    new_id);;
          mret (Ok (new_id, channel_data))
      end
  end.

Definition OnNewChannel (channel_fd : LocalHandle) : M (Status ()) :=
  r ← OnNewChannelLocked channel_fd 0;
  mret (match r with
        | Ok _ => Ok ()
        | ErrorStatus e => ErrorStatus e
        end).

Definition ReenableEpollEvent (fd : BorrowedHandle) : M (Status ()) :=
  r ← epoll_ctl EPOLL_CTL_MOD fd oneshot_events;
  mret (of_errno r).

(** [Endpoint::CloseChannelLocked]. *)
Definition CloseChannelLocked (channel_id : Z) : M (Status ()) :=
  s ← gets id;
  match channels_ s !! channel_id with
  | None => mret (ErrorStatus EINVAL)
  | Some cd =>
      let channel_fd := data_fd cd in
      r ← epoll_ctl EPOLL_CTL_DEL channel_fd 0;
      modify (λ s, set_channels (delete channel_id (channels_ s))
                     (delete channel_fd (channel_fd_to_id_ s))
                     (last_channel_id_ s) s);;
      mret (of_errno r)
  end.

Definition CloseChannel (channel_id : Z) : M (Status ()) :=
  CloseChannelLocked channel_id.

(** [Endpoint::BuildCloseMessage]: the message it stores in [*message]. *)
Definition BuildCloseMessage (channel_id : Z) : M Message :=
  new_mid ← GetNextAvailableMessageId;
  svc ← gets service_;
  chan ← GetChannelState channel_id;
  mret (new_Message
          (mkMessageInfo (-1) (-1) channel_id (to_int32 new_mid) (-1) (-1)
             CHANNEL_CLOSE 0 svc chan 0 0 0 [])).

(** [ReceiveData(channel_fd, &request)] of the transport. *)
Definition ReceiveData_request (channel_fd : BorrowedHandle)
  : M (Status RequestHeader) :=
  issue (sys_recv_request channel_fd);;
  mret (k_recv_request k channel_fd).

(** [ReceiveData(channel_fd, data, size)] of the transport. *)
Definition ReceiveData_payload (channel_fd : BorrowedHandle) (size : Z)
  : M (Status (list byte)) :=
  issue (sys_recv_payload channel_fd size);;
  mret (k_recv_payload k channel_fd size).

(** The two identical [if (!status)] blocks of [ReceiveMessageForChannel]:
    a clean shutdown becomes a close message and success, any other error
    closes the channel and is returned. *)
Definition on_receive_error (channel_id : Z) (e : errno) (message : Message)
  : M (Status () * Message) :=
  if decide (e = ESHUTDOWN) then
    close_message ← BuildCloseMessage channel_id;
    mret (Ok (), close_message)
  else
    CloseChannel channel_id;;
    mret (ErrorStatus e, message).

(** [Endpoint::ReceiveMessageForChannel].  The result is the returned
    status and the contents of [*message] afterwards. *)
Definition ReceiveMessageForChannel (channel_fd : BorrowedHandle)
    (message : Message) : M (Status () * Message) :=
  channel_id ← GetChannelId channel_fd;
  status ← ReceiveData_request channel_fd;
  match status with
  | ErrorStatus e => on_receive_error channel_id e message
  | Ok req =>
      new_mid ← (if rq_is_impulse req then mret IMPULSE_MESSAGE_ID
                 else n ← GetNextAvailableMessageId; mret (to_int32 n));
      svc ← gets service_;
      chan ← GetChannelState channel_id;
      let message :=
        new_Message
          (mkMessageInfo (cred_pid (rq_cred req)) (-1) channel_id new_mid
             (cred_uid (rq_cred req)) (cred_gid (rq_cred req)) (rq_op req) 0
             svc chan (rq_send_len req) (rq_max_recv_len req)
             (Z.of_nat (length (rq_file_descriptors req)))
             (rq_impulse_payload req)) in
      let message := set_state (set_request req (state message)) message in
      '(status, message) ←
        (if (0 <? rq_send_len req) && negb (rq_is_impulse req) then
           r ← ReceiveData_payload channel_fd (rq_send_len req);
           mret (match r with
                 | Ok data =>
                     (Ok (), set_state (set_request_data data (state message))
                               message)
                 | ErrorStatus e =>
                     (ErrorStatus e,
                      set_state
                        (set_request_data
                           (replicate (Z.to_nat (rq_send_len req)) x00)
                           (state message)) message)
                 end)
         else mret (Ok (), message));
      status ← (if status_ok status && rq_is_impulse req
                then ReenableEpollEvent channel_fd
                else mret status);
      match status with
      | ErrorStatus e => on_receive_error channel_id e message
      | Ok _ => mret (Ok (), message)
      end
  end.

Definition setsockopt_passcred (fd : Z) : M (option errno) :=
  issue (sys_setsockopt_passcred fd);;
  mret (k_setsockopt k fd).

(** [Endpoint::AcceptConnection]. *)
Definition AcceptConnection (message : Message) : M (Status () * Message) :=
  listen_fd ← gets socket_fd_;
  issue (sys_accept4 listen_fd);;
  let channel_fd := fst (k_accept4 k) in
  if negb (IsValid channel_fd) then
    mret (ErrorStatus (snd (k_accept4 k)), message)
  else
    r ← setsockopt_passcred channel_fd;
    match r with
    | Some e => mret (ErrorStatus e, message)
    | None =>
        status ← OnNewChannel channel_fd;
        match status with
        | Ok _ => ReceiveMessageForChannel channel_fd message
        | ErrorStatus e => mret (ErrorStatus e, message)
        end
    end.

(** [Endpoint::MessageReceive]. *)
Definition MessageReceive (message : Message) : M (Status () * Message) :=
  blocking ← gets is_blocking_;
  issue (sys_epoll_wait (if (blocking : bool) then -1 else 0));;
  match k_epoll_wait k with
  | wait_failed e => mret (ErrorStatus e, message)
  | wait_nothing => mret (ErrorStatus ETIMEDOUT, message)
  | wait_event fd events =>
      cancel_fd ← gets cancel_event_fd_;
      listen_fd ← gets socket_fd_;
      if fd =? cancel_fd then
        mret (ErrorStatus ESHUTDOWN, message)
      else if fd =? listen_fd then
        '(status, message) ← AcceptConnection message;
        match status with
        | ErrorStatus e => mret (ErrorStatus e, message)
        | Ok _ =>
            status ← ReenableEpollEvent listen_fd;
            mret (status, message)
        end
      else if negb (Z.land events (Z.lor EPOLLRDHUP EPOLLHUP) =? 0) then
        channel_id ← GetChannelId fd;
        close_message ← BuildCloseMessage channel_id;
        mret (Ok (), close_message)
      else
        ReceiveMessageForChannel fd message
  end.

(** [SendData(channel_socket, state->response)] of the transport. *)
Definition SendData_response (fd : BorrowedHandle) (hdr : ResponseHeader)
  : M (Status ()) :=
  issue (sys_send_response fd hdr);;
  mret (k_send_response k fd hdr).

(** [SendData(channel_socket, data, size)] of the transport. *)
Definition SendData_payload (fd : BorrowedHandle) (data : list byte)
  : M (Status ()) :=
  issue (sys_send_payload fd data);;
  mret (k_send_payload k fd data).

(** The part of [MessageReply] after the [switch]: fill in and send the
    response header, then the payload, then re-arm the channel. *)
Definition send_reply (channel_socket : BorrowedHandle) (return_code : Z)
    (message : Message) : M (Status () * Message) :=
  let st := state message in
  let hdr :=
    mkResponseHeader return_code (Z.of_nat (length (response_data st)))
      (rs_file_descriptors (response st)) (rs_channels (response st)) in
  let message := set_state (set_response hdr st) message in
  status ← SendData_response channel_socket hdr;
  status ← (if status_ok status && negb (bool_decide (response_data st = []))
            then SendData_payload channel_socket (response_data st)
            else mret status);
  status ← (if status_ok status then ReenableEpollEvent channel_socket
            else mret status);
  mret (status, message).

(** [Endpoint::MessageReply]. *)
Definition MessageReply (message : Message) (return_code : Z)
  : M (Status () * Message) :=
  let channel_id := cid (info message) in
  channel_socket ← GetChannelSocketFd channel_id;
  if negb (IsValid channel_socket) then
    mret (ErrorStatus EBADF, message)
  else if op (info message) =? CHANNEL_CLOSE then
    status ← CloseChannel channel_id;
    mret (status, message)
  else if op (info message) =? CHANNEL_OPEN then
    if return_code <? 0 then
      status ← CloseChannel channel_id;
      mret (status, message)
    else
      event ← GetChannelEventFd channel_id;
      let '(push_status, st) := PushFileHandle event (state message) in
      let message := set_state (set_response_data [] st) message in
      match push_status with
      | ErrorStatus e => mret (ErrorStatus e, message)
      | Ok ref => send_reply channel_socket ref message
      end
  else
    send_reply channel_socket return_code message.

(** [Endpoint::PushChannel].  The result is the returned status, the
    contents of [*message] and of [*channel_id] afterwards. *)
Definition PushChannel (message : Message) (chan_state : Z) (channel_id : Z)
  : M (Status Z * Message * Z) :=
  issue sys_socketpair;;
  let '(failure, local_socket, remote_socket) := k_socketpair k in
  match failure with
  | Some e => mret (ErrorStatus e, message, channel_id)
  | None =>
      r ← setsockopt_passcred local_socket;
      match r with
      | Some e => mret (ErrorStatus e, message, channel_id)
      | None =>
          channel_data ← OnNewChannelLocked local_socket chan_state;
          match channel_data with
          | ErrorStatus e => mret (ErrorStatus e, message, channel_id)
          | Ok (new_id, cd) =>
              let '(ref, st) :=
                PushChannelHandle remote_socket (event_fd cd) (state message) in
              match ref with
              | ErrorStatus e => mret (ErrorStatus e, set_state st message, new_id)
              | Ok r =>
                  let st :=
                    set_sockets_to_close (sockets_to_close st ++ [remote_socket])
                      st in
                  mret (Ok r, set_state st message, new_id)
              end
          end
      end
  end.

End EndpointOps.

Section References.
Context `{PdxHeaders}.

(** [Endpoint::GetFileHandle]: the returned handle and [*message]
    afterwards.  The flag of [GetLocalFileHandle] is dropped. *)
Definition GetFileHandle (message : Message) (ref : Z) : LocalHandle * Message :=
  let handle := kEmptyFileHandle in
  let '(_, handle, st) := GetLocalFileHandle ref handle (state message) in
  (handle, set_state st message).

(** [Endpoint::GetChannelHandle]. *)
Definition GetChannelHandle (message : Message) (ref : Z)
  : LocalChannelHandle * Message :=
  let handle := mkLocalChannelHandle false kEmptyHandle in
  let '(_, handle, st) := GetLocalChannelHandle ref handle (state message) in
  (handle, set_state st message).

End References.

(** ** Message payload, further replies and channel state *)

Definition to_uint64 (z : Z) : Z := z mod 2 ^ 64.

Definition set_request_data_read_pos (pos : Z) (st : MessageState)
  : MessageState :=
  mkMessageState (request st) (response st) (sockets_to_close st)
    (request_data st) pos (response_data st).

(** The loop of [MessageState::WriteData] over the buffers of the [iovec]
    array (each given by its contents, [iov_len] being its length): the
    running [size_t] total and the grown [response_data]. *)
Fixpoint write_loop (vector : list (list byte)) (size : Z) (data : list byte)
  : Z * list byte :=
  match vector with
  | [] => (size, data)
  | buffer :: rest =>
      write_loop rest (to_uint64 (size + Z.of_nat (length buffer)))
        (data ++ buffer)
  end.

(** [MessageState::WriteData]. *)
Definition WriteData (vector : list (list byte)) (st : MessageState)
  : Status Z * MessageState :=
  let '(size, data) := write_loop vector 0 (response_data st) in
  (Ok size, set_response_data data st).

(** The loop of [MessageState::ReadData] over the [iov_len] of the buffers:
    the total, the read position afterwards and what [memcpy] stored into
    each buffer the loop reached. *)
Fixpoint read_loop (vector : list nat) (data : list byte)
    (pos size_remaining size : Z) : Z * Z * list (list byte) :=
  match vector with
  | [] => (size, pos, [])
  | iov_len :: rest =>
      if 0 <? size_remaining then
        let size_to_copy := Z.min size_remaining (Z.of_nat iov_len) in
        let chunk := take (Z.to_nat size_to_copy) (drop (Z.to_nat pos) data) in
        let '(size', pos', chunks) :=
          read_loop rest data (pos + size_to_copy)
            (size_remaining - size_to_copy) (size + size_to_copy) in
        (size', pos', chunk :: chunks)
      else (size, pos, [])
  end.

(** [MessageState::ReadData]: the returned size, the contents stored into
    the buffers and the state. *)
Definition ReadData (vector : list nat) (st : MessageState)
  : Status Z * list (list byte) * MessageState :=
  let size_remaining :=
    to_uint64 (Z.of_nat (length (request_data st)) - request_data_read_pos st) in
  let '(size, pos, chunks) :=
    read_loop vector (request_data st) (request_data_read_pos st)
      size_remaining 0 in
  (Ok size, chunks, set_request_data_read_pos pos st).

(** [Endpoint::ReadMessageData]. *)
Definition ReadMessageData (message : Message) (vector : list nat)
  : Status Z * list (list byte) * Message :=
  let '(size, chunks, st) := ReadData vector (state message) in
  (size, chunks, set_state st message).

(** [Endpoint::WriteMessageData]. *)
Definition WriteMessageData (message : Message) (vector : list (list byte))
  : Status Z * Message :=
  let '(size, st) := WriteData vector (state message) in
  (size, set_state st message).

(** [Endpoint::PushFileHandle(Message*, const LocalHandle&)]: the handle is
    borrowed and queued on the message. *)
Definition Endpoint_PushFileHandle (message : Message)
    (handle : LocalHandle) : Status Z * Message :=
  let '(ref, st) := PushFileHandle handle (state message) in
  (ref, set_state st message).

(** [Endpoint::SetChannel]. *)
Definition SetChannel (channel_id : Z) (channel : Z) : M (Status ()) :=
  s ← gets id;
  match channels_ s !! channel_id with
  | None => mret (ErrorStatus EINVAL)
  | Some cd =>
      modify (set_channels
                (<[channel_id := mkChannelData (data_fd cd) (event_fd cd)
                                   channel]> (channels_ s))
                (channel_fd_to_id_ s) (last_channel_id_ s));;
      mret (Ok ())
  end.

(** [Endpoint::MessageReplyFd]; [push_fd] is an [unsigned int], converted
    to [int]. *)
Definition MessageReplyFd `{PdxHeaders} (k : Kernel) (message : Message)
    (push_fd : Z) : M (Status () * Message) :=
  let '(ref, st) := PushFileHandle (to_int32 push_fd) (state message) in
  let message := set_state st message in
  match ref with
  | ErrorStatus e => mret (ErrorStatus e, message)
  | Ok r => MessageReply k message r
  end.

(** * Vocabulary of the properties *)

(** The error number an invalid handle carries (its negated value). *)
Definition carried_error (h : Z) : option Z :=
  if IsValid h then None else Some (- h).

(** The id the scan tries in its [j]-th iteration (counted from 1) when it
    starts with [last_channel_id_ = last]. *)
Definition tried_id (last : Z) (j : nat) : Z :=
  (last + Z.of_nat j - 1) mod INT32_MAX + 1.

(** Partial-correctness triples over the monad [M]. *)
Definition hoare {A} (P : Endpoint → Prop) (m : M A)
    (Q : A → Endpoint → Prop) : Prop :=
  ∀ s a s', P s → m s = Some (a, s') → Q a s'.

(** An operation preserves a property of the endpoint. *)
Definition preserves {A} (P : Endpoint → Prop) (m : M A) : Prop :=
  hoare P m (λ _, P).

(** The channel table: both maps and the rolling id counter. *)
Definition table (s : Endpoint) : gmap Z ChannelData * gmap Z Z * Z :=
  (channels_ s, channel_fd_to_id_ s, last_channel_id_ s).

(** A property that depends on the channel table only. *)
Definition table_property (P : Endpoint → Prop) : Prop :=
  ∀ s s', table s = table s' → P s → P s'.

(** The forward map [channels_] and the reverse map [channel_fd_to_id_]
    agree: every channel is found again under its socket, and every
    reverse entry names a channel that owns that socket. *)
Definition maps_consistent (s : Endpoint) : Prop :=
  (∀ id cd, channels_ s !! id = Some cd →
            channel_fd_to_id_ s !! data_fd cd = Some id) ∧
  (∀ fd id, channel_fd_to_id_ s !! fd = Some id →
            ∃ cd, channels_ s !! id = Some cd ∧ data_fd cd = fd).

(** No registered channel owns descriptor [fd]: what the kernel guarantees
    for a descriptor it has just created ([accept4], [socketpair]), since
    the sockets of the registered channels are still open. *)
Definition fd_unowned (fd : Z) (s : Endpoint) : Prop :=
  map_Forall (λ _ cd, data_fd cd ≠ fd) (channels_ s).

(** The rolling counter stays inside the id space (it starts at 0). *)
Definition id_counter_ok (s : Endpoint) : Prop :=
  0 ≤ last_channel_id_ s ≤ INT32_MAX.

(** The precondition of an operation that registers [fd]. *)
Definition registrable (fd : Z) (s : Endpoint) : Prop :=
  maps_consistent s ∧ fd_unowned fd s.

(** One call into the endpoint.  A call that registers a socket is given a
    descriptor the kernel has just created, which no registered channel
    owns. *)
Inductive endpoint_step `{PdxHeaders} (s : Endpoint) : Endpoint → Prop :=
| step_OnNewChannelLocked (k : Kernel) (fd chan_state : Z) r s' :
    fd_unowned fd s →
    OnNewChannelLocked k fd chan_state s = Some (r, s') →
    endpoint_step s s'
| step_OnNewChannel (k : Kernel) (fd : Z) r s' :
    fd_unowned fd s →
    OnNewChannel k fd s = Some (r, s') →
    endpoint_step s s'
| step_CloseChannelLocked (k : Kernel) (channel_id : Z) r s' :
    CloseChannelLocked k channel_id s = Some (r, s') →
    endpoint_step s s'
| step_CloseChannel (k : Kernel) (channel_id : Z) r s' :
    CloseChannel k channel_id s = Some (r, s') →
    endpoint_step s s'
| step_AcceptConnection (k : Kernel) (message : Message) r s' :
    fd_unowned (fst (k_accept4 k)) s →
    AcceptConnection k message s = Some (r, s') →
    endpoint_step s s'
| step_PushChannel (k : Kernel) (message : Message) (chan_state channel_id : Z)
    r s' :
    fd_unowned (snd (fst (k_socketpair k))) s →
    PushChannel k message chan_state channel_id s = Some (r, s') →
    endpoint_step s s'
| step_MessageReceive (k : Kernel) (message : Message) r s' :
    fd_unowned (fst (k_accept4 k)) s →
    MessageReceive k message s = Some (r, s') →
    endpoint_step s s'
| step_MessageReply (k : Kernel) (message : Message) (return_code : Z) r s' :
    MessageReply k message return_code s = Some (r, s') →
    endpoint_step s s'.

(** A new endpoint: listening socket 3, cancel event 4, epoll set 5, no
    channel yet. *)
Definition sample_endpoint : Endpoint := mkEndpoint false 3 4 5 ∅ ∅ 0 0 1 [].

(** A kernel where every call succeeds: [accept4] returns descriptor 7,
    [socketpair] the pair (9, 10), a new event descriptor is 8, one event
    is ready on the listening socket and the peer sends request [req]. *)
Definition sample_kernel (req : RequestHeader) : Kernel :=
  mkKernel (wait_event 3 EPOLLIN) (7, 1%positive) (λ _, None) (None, 9, 10) 8
    (λ _ _, None) (λ _, Ok req) (λ _ _, Ok []) (λ _ _, Ok ()) (λ _ _, Ok ()).

(** The same kernel, except that every [epoll_ctl] fails with [ENOENT]. *)
Definition sample_kernel_epoll_fails (req : RequestHeader) : Kernel :=
  mkKernel (wait_event 3 EPOLLIN) (7, 1%positive) (λ _, None) (None, 9, 10) 8
    (λ _ _, Some 2%positive) (λ _, Ok req) (λ _ _, Ok []) (λ _ _, Ok ())
    (λ _ _, Ok ()).

(** An endpoint with one registered channel: id 1 on socket 7, event
    descriptor 8. *)
Definition sample_endpoint_one_channel : Endpoint :=
  mkEndpoint false 3 4 5 {[1 := mkChannelData 7 8 0]} {[7 := 1]} 1 0 1 [].

(** A kernel where reading a request header fails with [e]. *)
Definition sample_kernel_read_fails (e : errno) : Kernel :=
  mkKernel (wait_event 3 EPOLLIN) (7, 1%positive) (λ _, None) (None, 9, 10) 8
    (λ _ _, None) (λ _, ErrorStatus e) (λ _ _, Ok []) (λ _ _, Ok ())
    (λ _ _, Ok ()).

(** What a call did to the ids of the table. *)
Inductive TableEvent : Type :=
| Assigned (id : Z)
| Freed (id : Z).

#[global] Instance TableEvent_eq_dec : EqDecision TableEvent.
Proof. solve_decision. Defined.


(** The message [ReceiveMessageForChannel] builds from a request header. *)
Definition request_message (req : RequestHeader) (channel_id new_mid : Z)
    (s : Endpoint) : Message :=
  mkMessage
    (mkMessageInfo (cred_pid (rq_cred req)) (-1) channel_id new_mid
       (cred_uid (rq_cred req)) (cred_gid (rq_cred req)) (rq_op req) 0
       (service_ s)
       (match channels_ s !! channel_id with
        | Some cd => channel_state cd
        | None => 0
        end)
       (rq_send_len req) (rq_max_recv_len req)
       (Z.of_nat (length (rq_file_descriptors req))) (rq_impulse_payload req))
    (set_request req AllocateMessageState).

(** The response header [MessageReply] sends for a successful
    [CHANNEL_OPEN]: the event descriptor is appended to the descriptors
    already pushed and its index becomes the return code. *)
Definition channel_open_response (message : Message) (event : Z)
  : ResponseHeader :=
  let pushed := rs_file_descriptors (response (state message)) in
  mkResponseHeader (to_int16 (Z.of_nat (length (pushed ++ [event])) - 1)) 0
    (pushed ++ [event]) (rs_channels (response (state message))).

(** Every channel id in use lies in the id space [1, INT32_MAX]. *)
Definition ids_in_range (s : Endpoint) : Prop :=
  map_Forall (λ id _, 1 ≤ id ≤ INT32_MAX) (channels_ s).

(** Pushing the handles of a list, one after the other, onto a message. *)
Definition push_file_handles (handles : list LocalHandle) (message : Message)
  : Message :=
  foldl (λ m handle, snd (Endpoint_PushFileHandle m handle)) message handles.

(** * Properties *)

(** ** Pulling references *)

Lemma set_state_same (m : Message) : set_state (state m) m = m.
Proof. by destruct m. Qed.

(** C8: for every message and every negative reference value [v],
    [GetFileHandle] and [GetChannelHandle] give back a handle that carries
    exactly [v], whatever the inbound lists of the message hold, and leave
    the message as it was; the underlying [GetLocal*Handle] calls succeed
    without touching the lists. *)
Theorem pull_negative_reference `{PdxHeaders} (message : Message) (v : Z)
    (h : LocalHandle) (ch : LocalChannelHandle) :
  v < 0 →
  GetFileHandle message v = (v, message) ∧
  GetChannelHandle message v = (mkLocalChannelHandle false v, message) ∧
  value (fst (GetChannelHandle message v)) = v ∧
  GetLocalFileHandle v h (state message) = (true, v, state message) ∧
  GetLocalChannelHandle v ch (state message)
    = (true, mkLocalChannelHandle false v, state message).
Proof.
  intros Hv.
  assert (Hlt : (v <? 0) = true) by by apply Z.ltb_lt.
  unfold GetFileHandle, GetChannelHandle, GetLocalFileHandle,
    GetLocalChannelHandle.
  rewrite Hlt; simpl. by rewrite set_state_same.
Qed.

Lemma pull_negative_reference_witness :
  GetFileHandle (new_Message (mkMessageInfo 1 1 1 1 1 1 7 0 0 0 0 0 0 [])) (-5)
    = (-5, new_Message (mkMessageInfo 1 1 1 1 1 1 7 0 0 0 0 0 0 [])).
Proof.
  apply (pull_negative_reference
           (new_Message (mkMessageInfo 1 1 1 1 1 1 7 0 0 0 0 0 0 [])) (-5) 0
           (mkLocalChannelHandle false 0)).
  lia.
Defined.

(** C7 as stated fails: on a message without inbound descriptors, pulling
    file reference 0 yields the empty handle, whose carried number is 1 and
    not [EINVAL]. *)
Lemma pull_out_of_range_not_einval :
  let message := new_Message (mkMessageInfo 1 1 1 1 1 1 7 0 0 0 0 0 0 []) in
  0 ≤ 0 ∧
  Z.of_nat (length (rq_file_descriptors (request (state message)))) ≤ 0 ∧
  fst (GetFileHandle message 0) = -1 ∧
  carried_error (fst (GetFileHandle message 0)) ≠ Some (Z.pos EINVAL).
Proof. vm_compute. repeat split; congruence. Qed.

(** C7, amended: for every message and every non-negative reference at or
    beyond the length of the inbound list, [GetLocalFileHandle] and
    [GetLocalChannelHandle] return false and leave both the out-parameter
    and the lists untouched, so [GetFileHandle] and [GetChannelHandle]
    return the empty (default-constructed, invalid) handle; no element of
    the list is read and no error number is reported. *)
Theorem pull_out_of_range_reference `{PdxHeaders} (message : Message) (ref : Z)
    (h : LocalHandle) (ch : LocalChannelHandle) :
  0 ≤ ref →
  (Z.of_nat (length (rq_file_descriptors (request (state message)))) ≤ ref →
     GetLocalFileHandle ref h (state message) = (false, h, state message) ∧
     GetFileHandle message ref = (kEmptyFileHandle, message) ∧
     IsValid (fst (GetFileHandle message ref)) = false) ∧
  (Z.of_nat (length (rq_channels (request (state message)))) ≤ ref →
     GetLocalChannelHandle ref ch (state message) = (false, ch, state message) ∧
     GetChannelHandle message ref
       = (mkLocalChannelHandle false kEmptyHandle, message)).
Proof.
  intros Hnn.
  assert (Hlt : (ref <? 0) = false) by by apply Z.ltb_ge.
  split; intros Hlen.
  - assert (Hge : (ref <? Z.of_nat (length (rq_file_descriptors
                                       (request (state message))))) = false)
      by by apply Z.ltb_ge.
    unfold GetFileHandle, GetLocalFileHandle. rewrite Hlt, Hge; simpl.
    rewrite set_state_same. repeat split.
    apply Z.leb_gt, kEmptyFileHandle_invalid.
  - assert (Hge : (ref <? Z.of_nat (length (rq_channels
                                       (request (state message))))) = false)
      by by apply Z.ltb_ge.
    unfold GetChannelHandle, GetLocalChannelHandle. rewrite Hlt, Hge; simpl.
    by rewrite set_state_same.
Qed.

Lemma pull_out_of_range_reference_witness :
  GetFileHandle (new_Message (mkMessageInfo 1 1 1 1 1 1 7 0 0 0 0 0 0 [])) 3
    = (-1, new_Message (mkMessageInfo 1 1 1 1 1 1 7 0 0 0 0 0 0 [])).
Proof.
  assert (Hnn : 0 ≤ 3) by lia.
  destruct (pull_out_of_range_reference
              (new_Message (mkMessageInfo 1 1 1 1 1 1 7 0 0 0 0 0 0 [])) 3 0
              (mkLocalChannelHandle false 0) Hnn) as [Hfile _].
  apply Hfile. simpl. lia.
Defined.

Lemma GetFileHandle_in_range `{PdxHeaders} (message : Message) (i : Z)
    (fd : LocalHandle) :
  0 ≤ i →
  rq_file_descriptors (request (state message)) !! Z.to_nat i = Some fd →
  GetFileHandle message i
    = (fd,
       set_state
         (set_request
            (set_rq_file_descriptors
               (<[Z.to_nat i := kEmptyFileHandle]>
                  (rq_file_descriptors (request (state message))))
               (request (state message)))
            (state message)) message).
Proof.
  intros Hnn Hfd.
  pose proof (lookup_lt_Some _ _ _ Hfd) as Hlen.
  assert (Hlt : (i <? 0) = false) by by apply Z.ltb_ge.
  assert (Hin : (i <? Z.of_nat (length (rq_file_descriptors
                                   (request (state message))))) = true)
    by (apply Z.ltb_lt; lia).
  unfold GetFileHandle, GetLocalFileHandle.
  by rewrite Hlt, Hin, Hfd.
Qed.

(** C10: pulling a file reference moves the descriptor out of the inbound
    list.  For every message and every in-range index [i], the first
    [GetFileHandle] returns the descriptor stored at [i] and leaves the
    empty handle in its place; a second [GetFileHandle] with the same index
    on the same message returns that empty handle, which is invalid and so
    differs from the original whenever the original was valid. *)
Theorem pull_file_reference_twice `{PdxHeaders} (message : Message) (i : Z)
    (fd : LocalHandle) :
  0 ≤ i →
  rq_file_descriptors (request (state message)) !! Z.to_nat i = Some fd →
  let first := GetFileHandle message i in
  let second := GetFileHandle (snd first) i in
  fst first = fd ∧
  rq_file_descriptors (request (state (snd first)))
    = <[Z.to_nat i := kEmptyFileHandle]>
        (rq_file_descriptors (request (state message))) ∧
  fst second = kEmptyFileHandle ∧
  IsValid (fst second) = false ∧
  (IsValid fd = true → fst second ≠ fd).
Proof.
  intros Hnn Hfd first second.
  pose proof (lookup_lt_Some _ _ _ Hfd) as Hlen.
  assert (Hinvalid : IsValid kEmptyFileHandle = false)
    by apply Z.leb_gt, kEmptyFileHandle_invalid.
  assert (Hfirst : first = GetFileHandle message i) by reflexivity.
  rewrite (GetFileHandle_in_range message i fd Hnn Hfd) in Hfirst.
  assert (Hsecond : fst second = kEmptyFileHandle).
  { unfold second. rewrite Hfirst. simpl snd.
    erewrite GetFileHandle_in_range; [reflexivity | done |].
    simpl. by apply list_lookup_insert_eq. }
  rewrite Hsecond, Hfirst. simpl.
  repeat split; try done.
  intros Hvalid Heq. congruence.
Qed.

Lemma pull_file_reference_twice_witness :
  let message :=
    mkMessage (mkMessageInfo 1 1 1 1 1 1 7 0 0 0 0 0 2 [])
      (set_request (set_rq_file_descriptors [11; 12] default_request)
         AllocateMessageState) in
  fst (GetFileHandle message 1) = 12 ∧
  fst (GetFileHandle (snd (GetFileHandle message 1)) 1) = -1.
Proof.
  intros message.
  assert (Hnn : 0 ≤ 1) by lia.
  assert (Hfd : rq_file_descriptors (request (state message)) !! Z.to_nat 1
                = Some 12) by reflexivity.
  destruct (pull_file_reference_twice message 1 12 Hnn Hfd)
    as (H1 & _ & H2 & _).
  split; [exact H1 | exact H2].
Defined.

(** ** The id scan of [OnNewChannelLocked] *)

Lemma to_int32_small (z : Z) : - 2 ^ 31 ≤ z < 2 ^ 31 → to_int32 z = z.
Proof.
  intros Hz. unfold to_int32.
  rewrite Z.mod_small; lia.
Qed.

Lemma to_int16_small (z : Z) : - 2 ^ 15 ≤ z < 2 ^ 15 → to_int16 z = z.
Proof.
  intros Hz. unfold to_int16.
  rewrite Z.mod_small by lia. lia.
Qed.

Lemma to_int16_range (z : Z) : - 2 ^ 15 ≤ to_int16 z ≤ INT16_MAX.
Proof.
  unfold to_int16, INT16_MAX.
  pose proof (Z.mod_pos_bound (z + 2 ^ 15) (2 ^ 16)). lia.
Qed.

Lemma tried_id_range (last : Z) (j : nat) : 1 ≤ tried_id last j ≤ INT32_MAX.
Proof.
  unfold tried_id.
  pose proof (Z.mod_pos_bound (last + Z.of_nat j - 1) INT32_MAX).
  unfold INT32_MAX in *. lia.
Qed.

Lemma advance_tried_id (last : Z) :
  0 ≤ last ≤ INT32_MAX →
  (if last =? INT32_MAX then 1 else to_int32 (last + 1)) = tried_id last 1.
Proof.
  intros Hlast. unfold tried_id.
  replace (last + Z.of_nat 1 - 1) with last by lia.
  destruct (Z.eqb_spec last INT32_MAX) as [-> | Hne].
  - by rewrite Z.mod_same.
  - rewrite Z.mod_small by lia.
    apply to_int32_small. unfold INT32_MAX in *. lia.
Qed.

Lemma tried_id_shift (last : Z) (j : nat) :
  tried_id (tried_id last 1) j = tried_id last (S j).
Proof.
  unfold tried_id.
  replace (last + Z.of_nat 1 - 1) with last by lia.
  replace (last mod INT32_MAX + 1 + Z.of_nat j - 1)
    with (last mod INT32_MAX + Z.of_nat j) by lia.
  replace (last + Z.of_nat (S j) - 1) with (last + Z.of_nat j) by lia.
  by rewrite Zplus_mod_idemp_l.
Qed.

Lemma mod_eq_close (a b m : Z) :
  0 < m → a mod m = b mod m → - m < a - b < m → a = b.
Proof.
  intros Hm Heq Hclose.
  pose proof (Z.div_mod a m ltac:(lia)) as Ha.
  pose proof (Z.div_mod b m ltac:(lia)) as Hb.
  assert (Hdiff : a - b = m * (a / m - b / m)) by lia.
  assert (a / m - b / m = 0) by nia.
  lia.
Qed.

(** Within one lap of the id space the scan never tries an id twice. *)
Lemma tried_id_inj (last : Z) (i j : nat) :
  (1 ≤ i ≤ Z.to_nat INT32_MAX)%nat → (1 ≤ j ≤ Z.to_nat INT32_MAX)%nat →
  tried_id last i = tried_id last j → i = j.
Proof.
  intros Hi Hj Heq. unfold tried_id in Heq.
  assert (Hmod : (last + Z.of_nat i - 1) mod INT32_MAX
                 = (last + Z.of_nat j - 1) mod INT32_MAX) by lia.
  apply mod_eq_close in Hmod; unfold INT32_MAX in *; lia.
Qed.

(** One lap of the scan tries every id of the id space. *)
Lemma tried_id_surj (last id : Z) :
  1 ≤ id ≤ INT32_MAX →
  ∃ j, (1 ≤ j ≤ Z.to_nat INT32_MAX)%nat ∧ tried_id last j = id.
Proof.
  intros Hid.
  pose proof (Z.mod_pos_bound (id - 1 - last) INT32_MAX ltac:(done)) as Hb.
  exists (Z.to_nat ((id - 1 - last) mod INT32_MAX + 1)). split.
  - unfold INT32_MAX in *. lia.
  - unfold tried_id. rewrite Z2Nat.id by lia.
    replace (last + ((id - 1 - last) mod INT32_MAX + 1) - 1)
      with (last + (id - 1 - last) mod INT32_MAX) by lia.
    rewrite Zplus_mod_idemp_r.
    replace (last + (id - 1 - last)) with (id - 1) by lia.
    rewrite Z.mod_small; unfold INT32_MAX in *; lia.
Qed.

(** What a bounded scan computes: the first id in trying order that is not
    a key of the table, or nothing when all the ids tried are keys. *)
Lemma scan_channel_id_spec (fuel : nat) (last : Z) (chans : gmap Z ChannelData) :
  0 ≤ last ≤ INT32_MAX →
  match scan_channel_id fuel last chans with
  | Some id =>
      ∃ j, (1 ≤ j ≤ fuel)%nat ∧ id = tried_id last j ∧ chans !! id = None ∧
           ∀ i, (1 ≤ i < j)%nat → is_Some (chans !! tried_id last i)
  | None => ∀ i, (1 ≤ i ≤ fuel)%nat → is_Some (chans !! tried_id last i)
  end.
Proof.
  revert last. induction fuel as [| fuel IH]; intros last Hlast; simpl.
  - intros i Hi. lia.
  - rewrite advance_tried_id by done.
    destruct (chans !! tried_id last 1) as [cd |] eqn:Hfirst.
    + pose proof (tried_id_range last 1) as Hrange.
      specialize (IH (tried_id last 1) ltac:(lia)).
      destruct (scan_channel_id fuel (tried_id last 1) chans) as [id |].
      * destruct IH as (j & Hj & -> & Hfree & Hbusy).
        exists (S j). rewrite tried_id_shift in Hfree |- *.
        split; [lia |]. split; [done |]. split; [done |].
        intros i Hi. destruct i as [| [| i]]; [lia | by rewrite Hfirst |].
        rewrite <- tried_id_shift. apply Hbusy. lia.
      * intros i Hi. destruct i as [| [| i]]; [lia | by rewrite Hfirst |].
        rewrite <- tried_id_shift. apply IH. lia.
    + exists 1%nat.
      split; [lia |]. split; [done |]. split; [done |].
      intros i Hi. lia.
Qed.

(** Pigeonhole: a table cannot hold more distinct ids than it has entries. *)
Lemma tried_ids_bounded (last : Z) (n : nat) (chans : gmap Z ChannelData) :
  (n ≤ Z.to_nat INT32_MAX)%nat →
  (∀ i, (1 ≤ i ≤ n)%nat → is_Some (chans !! tried_id last i)) →
  (n ≤ size chans)%nat.
Proof.
  intros Hn Hbusy.
  set (ids := tried_id last <$> seq 1 n).
  assert (Hnodup : NoDup ids).
  { apply NoDup_fmap_2_strong; [| apply NoDup_seq].
    intros i j Hi%elem_of_seq Hj%elem_of_seq. apply tried_id_inj; lia. }
  assert (Hsub : ∀ x, x ∈ ids → x ∈ elements (dom chans)).
  { intros x (i & -> & Hi%elem_of_seq)%list_elem_of_fmap.
    apply elem_of_elements, elem_of_dom, Hbusy. lia. }
  pose proof (submseteq_length _ _ (NoDup_submseteq _ _ Hnodup Hsub)) as Hlen.
  unfold ids in Hlen. rewrite length_fmap, length_seq in Hlen.
  by rewrite <- size_dom.
Qed.

(** When the scan bounded by the size of the table plus one finds nothing,
    the whole id space is taken. *)
Lemma scan_channel_id_full (last : Z) (chans : gmap Z ChannelData) :
  0 ≤ last ≤ INT32_MAX →
  scan_channel_id (S (size chans)) last chans = None →
  ∀ id, 1 ≤ id ≤ INT32_MAX → is_Some (chans !! id).
Proof.
  intros Hlast Hscan id Hid.
  pose proof (scan_channel_id_spec (S (size chans)) last chans Hlast) as Hspec.
  rewrite Hscan in Hspec.
  destruct (decide (S (size chans) ≤ Z.to_nat INT32_MAX)%nat) as [Hle | Hgt].
  - pose proof (tried_ids_bounded last (S (size chans)) chans Hle Hspec). lia.
  - destruct (tried_id_surj last id Hid) as (j & Hj & <-).
    apply Hspec. lia.
Qed.

(** The bound is enough: with more iterations the loop of
    [OnNewChannelLocked] would still find nothing, so [None] stands for a
    loop that never ends; and when it finds an id, any larger bound finds
    the same one. *)
Lemma scan_channel_id_enough (fuel : nat) (last : Z) (chans : gmap Z ChannelData) :
  0 ≤ last ≤ INT32_MAX →
  scan_channel_id (S (size chans)) last chans = None →
  scan_channel_id fuel last chans = None.
Proof.
  intros Hlast Hscan.
  pose proof (scan_channel_id_full last chans Hlast Hscan) as Hfull.
  pose proof (scan_channel_id_spec fuel last chans Hlast) as Hspec.
  destruct (scan_channel_id fuel last chans) as [id |]; [| done].
  destruct Hspec as (j & _ & -> & Hfree & _).
  destruct (Hfull (tried_id last j) (tried_id_range last j)) as [cd Hcd].
  congruence.
Qed.

Lemma scan_channel_id_more (fuel fuel' : nat) (last id : Z)
    (chans : gmap Z ChannelData) :
  (fuel ≤ fuel')%nat →
  scan_channel_id fuel last chans = Some id →
  scan_channel_id fuel' last chans = Some id.
Proof.
  revert fuel' last. induction fuel as [| fuel IH]; intros fuel' last Hle;
    [done |].
  destruct fuel' as [| fuel']; [lia |]. simpl.
  destruct (chans !! (if last =? INT32_MAX then 1 else to_int32 (last + 1)));
    [apply IH; lia | done].
Qed.

(** The scan finds an id as soon as one id of the id space is free. *)
Lemma scan_channel_id_finds (last free : Z) (chans : gmap Z ChannelData) :
  0 ≤ last ≤ INT32_MAX → 1 ≤ free ≤ INT32_MAX → chans !! free = None →
  is_Some (scan_channel_id (S (size chans)) last chans).
Proof.
  intros Hlast Hfree Hnone.
  destruct (scan_channel_id (S (size chans)) last chans) as [id |] eqn:Hscan;
    [by eexists |].
  destruct (scan_channel_id_full last chans Hlast Hscan free Hfree) as [cd Hcd].
  congruence.
Qed.

(** ** Reasoning about endpoint operations *)

Lemma hoare_ret {A} (P : Endpoint → Prop) (a : A) :
  hoare P (mret a) (λ _, P).
Proof. intros s a' s' HP [= <- <-]. done. Qed.

Lemma hoare_bind {A B} (P : Endpoint → Prop) (Q : A → Endpoint → Prop)
    (R : B → Endpoint → Prop) (m : M A) (f : A → M B) :
  hoare P m Q → (∀ a, hoare (Q a) (f a) R) → hoare P (m ≫= f) R.
Proof.
  intros Hm Hf s b s' HP Hrun.
  unfold mbind, M_bind in Hrun.
  destruct (m s) as [[a s1] |] eqn:Hms; [| done].
  eapply Hf; [| exact Hrun]. eapply Hm; [exact HP | exact Hms].
Qed.

Lemma hoare_weaken {A} (P P' : Endpoint → Prop) (Q Q' : A → Endpoint → Prop)
    (m : M A) :
  hoare P' m Q' → (∀ s, P s → P' s) → (∀ a s, Q' a s → Q a s) → hoare P m Q.
Proof. intros Hm Hpre Hpost s a s' HP Hrun. eapply Hpost, Hm; eauto. Qed.

Lemma hoare_diverge {A} (P : Endpoint → Prop) (Q : A → Endpoint → Prop) :
  hoare P diverge Q.
Proof. intros s a s' _ [=]. Qed.

Lemma preserves_ret {A} (P : Endpoint → Prop) (a : A) : preserves P (mret a).
Proof. apply hoare_ret. Qed.

Lemma preserves_bind {A B} (P : Endpoint → Prop) (m : M A) (f : A → M B) :
  preserves P m → (∀ a, preserves P (f a)) → preserves P (m ≫= f).
Proof. intros Hm Hf. eapply hoare_bind; [exact Hm | exact Hf]. Qed.

Lemma preserves_diverge {A} (P : Endpoint → Prop) : preserves P (@diverge A).
Proof. apply hoare_diverge. Qed.

Lemma preserves_gets {A} (P : Endpoint → Prop) (f : Endpoint → A) :
  preserves P (gets f).
Proof. intros s a s' HP [= <- <-]. done. Qed.

Lemma preserves_issue (P : Endpoint → Prop) (c : Syscall) :
  table_property P → preserves P (issue c).
Proof. intros HP s a s' Hs [= <- <-]. eapply HP; [| exact Hs]. done. Qed.

Lemma preserves_next_message_id (P : Endpoint → Prop) (n : Z) :
  table_property P → preserves P (modify (set_next_message_id n)).
Proof. intros HP s a s' Hs [= <- <-]. eapply HP; [| exact Hs]. done. Qed.

Create HintDb preserves discriminated.

#[local] Hint Resolve preserves_ret preserves_gets preserves_diverge
  preserves_issue preserves_next_message_id : preserves.

(** Walk through an operation built from binds, conditionals and matches,
    closing the leaves with the lemmas of the [preserves] database. *)
Ltac preserve_step :=
  match goal with
  | |- preserves _ (_ ≫= _) => apply preserves_bind
  | |- ∀ _, _ => intro
  | |- preserves _ (match ?x with _ => _ end) => destruct x
  | |- preserves _ (let '(_, _) := ?x in _) => destruct x
  | |- preserves _ ((λ _, _) _) => progress simpl
  | |- preserves _ _ => solve [eauto with preserves]
  end.

Ltac preserve := repeat preserve_step.

Section Preservation.
Context `{PdxHeaders}.
Variable k : Kernel.
Variable P : Endpoint → Prop.
Hypothesis P_table : table_property P.

Lemma preserves_epoll_ctl (o : EpollOp) (fd events : Z) :
  preserves P (epoll_ctl k o fd events).
Proof using P_table. unfold epoll_ctl. preserve. Qed.

Lemma preserves_GetNextAvailableMessageId :
  preserves P GetNextAvailableMessageId.
Proof using P_table. unfold GetNextAvailableMessageId. preserve. Qed.

Lemma preserves_ReenableEpollEvent (fd : Z) :
  preserves P (ReenableEpollEvent k fd).
Proof using P_table.
  unfold ReenableEpollEvent. pose proof preserves_epoll_ctl. preserve.
Qed.

Lemma preserves_BuildCloseMessage (channel_id : Z) :
  preserves P (BuildCloseMessage channel_id).
Proof using P_table.
  unfold BuildCloseMessage, GetChannelState.
  pose proof preserves_GetNextAvailableMessageId. preserve.
Qed.

Lemma preserves_ReceiveData_request (fd : Z) :
  preserves P (ReceiveData_request k fd).
Proof using P_table. unfold ReceiveData_request. preserve. Qed.

Lemma preserves_ReceiveData_payload (fd size : Z) :
  preserves P (ReceiveData_payload k fd size).
Proof using P_table. unfold ReceiveData_payload. preserve. Qed.

Lemma preserves_SendData_response (fd : Z) (hdr : ResponseHeader) :
  preserves P (SendData_response k fd hdr).
Proof using P_table. unfold SendData_response. preserve. Qed.

Lemma preserves_SendData_payload (fd : Z) (data : list byte) :
  preserves P (SendData_payload k fd data).
Proof using P_table. unfold SendData_payload. preserve. Qed.

Lemma preserves_setsockopt_passcred (fd : Z) :
  preserves P (setsockopt_passcred k fd).
Proof using P_table. unfold setsockopt_passcred. preserve. Qed.

Lemma preserves_send_reply (sock rc : Z) (message : Message) :
  preserves P (send_reply k sock rc message).
Proof using P_table.
  unfold send_reply.
  pose proof preserves_SendData_response. pose proof preserves_SendData_payload.
  pose proof preserves_ReenableEpollEvent. preserve.
Qed.

(** Operations that may close channels preserve [P] as soon as
    [CloseChannelLocked] does. *)
Hypothesis P_close : ∀ id, preserves P (CloseChannelLocked k id).

Lemma preserves_on_receive_error (id : Z) (e : errno) (message : Message) :
  preserves P (on_receive_error k id e message).
Proof using P_table P_close.
  unfold on_receive_error, CloseChannel.
  pose proof preserves_BuildCloseMessage. preserve.
Qed.

Lemma preserves_ReceiveMessageForChannel (fd : Z) (message : Message) :
  preserves P (ReceiveMessageForChannel k fd message).
Proof using P_table P_close.
  unfold ReceiveMessageForChannel, GetChannelId, GetChannelState.
  pose proof preserves_ReceiveData_request.
  pose proof preserves_ReceiveData_payload.
  pose proof preserves_GetNextAvailableMessageId.
  pose proof preserves_ReenableEpollEvent.
  pose proof preserves_on_receive_error.
  preserve.
Qed.

Lemma preserves_MessageReply (message : Message) (rc : Z) :
  preserves P (MessageReply k message rc).
Proof using P_table P_close.
  unfold MessageReply, GetChannelSocketFd, GetChannelEventFd, CloseChannel.
  pose proof preserves_send_reply.
  preserve.
Qed.

End Preservation.

(** ** The two maps of the channel table *)

Lemma maps_consistent_table : table_property maps_consistent.
Proof. intros s s' [= Hc Hf Hl] Hs. unfold maps_consistent. by rewrite <- Hc, <- Hf. Qed.

Lemma fd_unowned_table (fd : Z) : table_property (fd_unowned fd).
Proof. intros s s' [= Hc Hf Hl] Hs. unfold fd_unowned. by rewrite <- Hc. Qed.

Lemma id_counter_ok_table : table_property id_counter_ok.
Proof. intros s s' [= Hc Hf Hl] Hs. unfold id_counter_ok. by rewrite <- Hl. Qed.

(** In a consistent table two channels never share a socket. *)
Lemma maps_consistent_inj (s : Endpoint) (id1 id2 : Z) (cd1 cd2 : ChannelData) :
  maps_consistent s →
  channels_ s !! id1 = Some cd1 → channels_ s !! id2 = Some cd2 →
  data_fd cd1 = data_fd cd2 → id1 = id2.
Proof.
  intros [Hfwd _] H1 H2 Heq.
  apply Hfwd in H1, H2. rewrite Heq in H1. congruence.
Qed.

Lemma scan_channel_id_free (fuel : nat) (last id : Z) (chans : gmap Z ChannelData) :
  scan_channel_id fuel last chans = Some id → chans !! id = None.
Proof.
  revert last. induction fuel as [| fuel IH]; intros last; [done |]. simpl.
  destruct (chans !! (if last =? INT32_MAX then 1 else to_int32 (last + 1)))
    eqn:Hl; [apply IH |].
  by intros [= <-].
Qed.

Arguments scan_channel_id : simpl never.

(** What [CloseChannelLocked] does, step by step. *)
Lemma CloseChannelLocked_run (k : Kernel) (channel_id : Z) (s : Endpoint) :
  CloseChannelLocked k channel_id s =
  match channels_ s !! channel_id with
  | None => Some (ErrorStatus EINVAL, s)
  | Some cd =>
      Some (of_errno (k_epoll_ctl k EPOLL_CTL_DEL (data_fd cd)),
            set_channels (delete channel_id (channels_ s))
              (delete (data_fd cd) (channel_fd_to_id_ s)) (last_channel_id_ s)
              (set_syscalls
                 (syscalls s ++ [sys_epoll_ctl EPOLL_CTL_DEL (data_fd cd) 0]) s))
  end.
Proof.
  unfold CloseChannelLocked, mbind, M_bind, gets. simpl.
  by destruct (channels_ s !! channel_id).
Qed.

(** What [OnNewChannelLocked] does, step by step. *)
Lemma OnNewChannelLocked_run (k : Kernel) (channel_fd chan_state : Z)
    (s : Endpoint) :
  OnNewChannelLocked k channel_fd chan_state s =
  let s1 :=
    set_syscalls
      (syscalls s ++ [sys_epoll_ctl EPOLL_CTL_ADD channel_fd oneshot_events]) s in
  match k_epoll_ctl k EPOLL_CTL_ADD channel_fd with
  | Some e => Some (ErrorStatus e, s1)
  | None =>
      match scan_channel_id (S (size (channels_ s))) (last_channel_id_ s)
              (channels_ s) with
      | None => None
      | Some new_id =>
          let cd := mkChannelData channel_fd (k_eventfd k) chan_state in
          Some (Ok (new_id, cd),
                set_channels (<[new_id := cd]> (channels_ s))
                  (map_emplace channel_fd new_id (channel_fd_to_id_ s))
                  new_id s1)
      end
  end.
Proof.
  unfold OnNewChannelLocked, mbind, M_bind, gets, epoll_ctl. simpl.
  destruct (k_epoll_ctl k EPOLL_CTL_ADD channel_fd); [done |]. simpl.
  by destruct (scan_channel_id _ _ _).
Qed.

Lemma CloseChannelLocked_consistent (k : Kernel) (channel_id : Z) :
  preserves maps_consistent (CloseChannelLocked k channel_id).
Proof.
  intros s a s' Hinv Hrun. rewrite CloseChannelLocked_run in Hrun.
  destruct (channels_ s !! channel_id) as [cd |] eqn:Hcd;
    injection Hrun as <- <-; [| done].
  destruct Hinv as [Hfwd Hrev]. split; simpl.
  - intros id cd' Hl.
    apply lookup_delete_Some in Hl as [Hne Hl].
    rewrite lookup_delete_ne; [by apply Hfwd |].
    intros Heq. apply Hne.
    apply Hfwd in Hl, Hcd. rewrite Heq in Hcd. congruence.
  - intros fd id Hl.
    apply lookup_delete_Some in Hl as [Hne Hl].
    destruct (Hrev fd id Hl) as (cd' & Hcd' & Hfd).
    exists cd'. split; [| done].
    rewrite lookup_delete_ne; [done |]. intros <-. congruence.
Qed.

Lemma OnNewChannelLocked_consistent (k : Kernel) (channel_fd chan_state : Z) :
  hoare (λ s, maps_consistent s ∧ fd_unowned channel_fd s)
    (OnNewChannelLocked k channel_fd chan_state) (λ _, maps_consistent).
Proof.
  intros s a s' [Hinv Hfresh] Hrun. rewrite OnNewChannelLocked_run in Hrun.
  simpl in Hrun.
  destruct (k_epoll_ctl k EPOLL_CTL_ADD channel_fd).
  { injection Hrun as <- <-. done. }
  destruct (scan_channel_id _ _ _) as [new_id |] eqn:Hscan; [| done].
  injection Hrun as <- <-.
  apply scan_channel_id_free in Hscan.
  destruct Hinv as [Hfwd Hrev].
  assert (Hnone : channel_fd_to_id_ s !! channel_fd = None).
  { destruct (channel_fd_to_id_ s !! channel_fd) as [id |] eqn:Hl; [| done].
    destruct (Hrev _ _ Hl) as (cd & Hcd & Hfd). by destruct (Hfresh _ _ Hcd). }
  unfold map_emplace. rewrite Hnone. split; simpl.
  - intros id cd Hl. apply lookup_insert_Some in Hl as [[<- <-] | [Hne Hl]].
    + simpl. by rewrite lookup_insert_eq.
    + rewrite lookup_insert_ne; [by apply Hfwd |].
      intros Heq. by destruct (Hfresh _ _ Hl).
  - intros fd id Hl. apply lookup_insert_Some in Hl as [[<- <-] | [Hne Hl]].
    + eexists. by rewrite lookup_insert_eq.
    + destruct (Hrev _ _ Hl) as (cd & Hcd & Hfd). exists cd. split; [| done].
      rewrite lookup_insert_ne; [done |]. intros <-. congruence.
Qed.

Lemma CloseChannelLocked_counter (k : Kernel) (channel_id : Z) :
  preserves id_counter_ok (CloseChannelLocked k channel_id).
Proof.
  intros s a s' Hinv Hrun. rewrite CloseChannelLocked_run in Hrun.
  destruct (channels_ s !! channel_id); by injection Hrun as <- <-.
Qed.

Lemma OnNewChannelLocked_counter (k : Kernel) (channel_fd chan_state : Z) :
  preserves id_counter_ok (OnNewChannelLocked k channel_fd chan_state).
Proof.
  intros s a s' Hinv Hrun. rewrite OnNewChannelLocked_run in Hrun.
  simpl in Hrun.
  destruct (k_epoll_ctl k EPOLL_CTL_ADD channel_fd).
  { by injection Hrun as <- <-. }
  destruct (scan_channel_id _ _ _) as [new_id |] eqn:Hscan; [| done].
  injection Hrun as <- <-.
  pose proof (scan_channel_id_spec (S (size (channels_ s))) _ (channels_ s)
                Hinv) as Hspec.
  rewrite Hscan in Hspec. destruct Hspec as (j & _ & -> & _).
  pose proof (tried_id_range (last_channel_id_ s) j).
  unfold id_counter_ok. simpl. lia.
Qed.

Section Consistency.
Context `{PdxHeaders}.
Variable k : Kernel.

Lemma registrable_table (fd : Z) : table_property (registrable fd).
Proof.
  intros s s' Ht [Hc Hf]. split.
  - by eapply maps_consistent_table.
  - by eapply fd_unowned_table.
Qed.

Lemma hoare_ret_registrable {A} (fd : Z) (a : A) :
  hoare (registrable fd) (mret a) (λ _, maps_consistent).
Proof. intros s a' s' [Hc _] [= <- <-]. done. Qed.

Lemma OnNewChannel_consistent (fd : Z) :
  hoare (registrable fd) (OnNewChannel k fd) (λ _, maps_consistent).
Proof.
  unfold OnNewChannel.
  eapply hoare_bind; [apply OnNewChannelLocked_consistent |].
  intros r. apply hoare_ret.
Qed.

Lemma AcceptConnection_consistent (message : Message) :
  hoare (registrable (fst (k_accept4 k))) (AcceptConnection k message)
    (λ _, maps_consistent).
Proof.
  pose proof (registrable_table (fst (k_accept4 k))) as Htable.
  unfold AcceptConnection.
  eapply hoare_bind; [apply preserves_gets |]. intros listen_fd.
  eapply hoare_bind; [by apply preserves_issue |]. intros []; simpl.
  destruct (negb (IsValid (k_accept4 k).1)); [apply hoare_ret_registrable |].
  eapply hoare_bind; [by apply preserves_setsockopt_passcred |].
  intros [e |]; [apply hoare_ret_registrable |].
  eapply hoare_bind; [apply OnNewChannel_consistent |].
  intros [_ | e]; [| apply hoare_ret].
  apply preserves_ReceiveMessageForChannel.
  - apply maps_consistent_table.
  - apply CloseChannelLocked_consistent.
Qed.

Lemma MessageReceive_consistent (message : Message) :
  hoare (registrable (fst (k_accept4 k))) (MessageReceive k message)
    (λ _, maps_consistent).
Proof.
  pose proof (registrable_table (fst (k_accept4 k))) as Htable.
  unfold MessageReceive.
  eapply hoare_bind; [apply preserves_gets |]. intros blocking.
  eapply hoare_bind; [by apply preserves_issue |]. intros []; simpl.
  destruct (k_epoll_wait k) as [e | | fd events];
    try apply hoare_ret_registrable.
  eapply hoare_bind; [apply preserves_gets |]. intros cancel_fd.
  eapply hoare_bind; [apply preserves_gets |]. intros listen_fd.
  destruct (fd =? cancel_fd); [apply hoare_ret_registrable |].
  destruct (fd =? listen_fd).
  { eapply hoare_bind; [apply AcceptConnection_consistent |].
    intros [[_ | e] message']; [| apply hoare_ret].
    apply preserves_bind; [| intros; apply preserves_ret].
    apply preserves_ReenableEpollEvent, maps_consistent_table. }
  eapply hoare_weaken with (P' := maps_consistent) (Q' := λ _, maps_consistent);
    [| by intros s [Hc _] | done].
  destruct (negb _).
  - unfold GetChannelId. apply preserves_bind; [apply preserves_gets |].
    intros id. apply preserves_bind; [| intros; apply preserves_ret].
    apply preserves_BuildCloseMessage, maps_consistent_table.
  - apply preserves_ReceiveMessageForChannel.
    + apply maps_consistent_table.
    + apply CloseChannelLocked_consistent.
Qed.

Lemma PushChannel_consistent (message : Message) (chan_state channel_id : Z) :
  hoare (registrable (snd (fst (k_socketpair k))))
    (PushChannel k message chan_state channel_id) (λ _, maps_consistent).
Proof.
  pose proof (registrable_table (snd (fst (k_socketpair k)))) as Htable.
  unfold PushChannel.
  eapply hoare_bind; [by apply preserves_issue |]. intros []; simpl.
  destruct (k_socketpair k) as [[[e |] local_socket] remote_socket]; simpl;
    [apply hoare_ret_registrable |].
  eapply hoare_bind; [by apply preserves_setsockopt_passcred |].
  intros [e |]; [apply hoare_ret_registrable |].
  eapply hoare_bind; [apply OnNewChannelLocked_consistent |].
  intros [[new_id cd] | e]; [| apply hoare_ret].
  destruct (PushChannelHandle _ _ _) as [[r | e] st]; apply hoare_ret.
Qed.

Lemma MessageReply_consistent (message : Message) (rc : Z) :
  preserves maps_consistent (MessageReply k message rc).
Proof.
  apply preserves_MessageReply.
  - apply maps_consistent_table.
  - apply CloseChannelLocked_consistent.
Qed.

End Consistency.

Lemma endpoint_step_consistent `{PdxHeaders} (s s' : Endpoint) :
  maps_consistent s → endpoint_step s s' → maps_consistent s'.
Proof.
  intros Hc Hstep.
  destruct Hstep as [k fd cs r s' Hf Hrun | k fd r s' Hf Hrun
                    | k id r s' Hrun | k id r s' Hrun
                    | k m r s' Hf Hrun | k m cs cid r s' Hf Hrun
                    | k m r s' Hf Hrun | k m rc r s' Hrun].
  - by eapply OnNewChannelLocked_consistent.
  - by eapply OnNewChannel_consistent.
  - by eapply CloseChannelLocked_consistent.
  - by eapply CloseChannelLocked_consistent.
  - by eapply AcceptConnection_consistent.
  - by eapply PushChannel_consistent.
  - by eapply MessageReceive_consistent.
  - by eapply MessageReply_consistent.
Qed.

(** C1: starting from a consistent channel table (the empty one of a new
    endpoint, for instance), after every sequence of calls that register
    channels ([OnNewChannel], [OnNewChannelLocked], [PushChannel],
    [AcceptConnection], and through it [MessageReceive]) or close them
    ([CloseChannel], [CloseChannelLocked], and through them the receive and
    reply paths), [channels_] and [channel_fd_to_id_] are still consistent:
    every channel has its reverse entry, every reverse entry has its
    channel, no two channels share a socket and no two sockets share a
    channel id.  Closing a registered
    channel removes both entries and keeps the maps consistent whatever
    [epoll_ctl(EPOLL_CTL_DEL)] answers, also when it fails. *)
Theorem channel_maps_consistent `{PdxHeaders} (s0 s : Endpoint) :
  maps_consistent s0 →
  rtc endpoint_step s0 s →
  maps_consistent s ∧
  (∀ id1 id2 cd1 cd2,
     channels_ s !! id1 = Some cd1 → channels_ s !! id2 = Some cd2 →
     data_fd cd1 = data_fd cd2 → id1 = id2) ∧
  (∀ fd1 fd2 id,
     channel_fd_to_id_ s !! fd1 = Some id →
     channel_fd_to_id_ s !! fd2 = Some id → fd1 = fd2) ∧
  (∀ k id cd,
     channels_ s !! id = Some cd →
     ∃ s', CloseChannelLocked k id s
             = Some (of_errno (k_epoll_ctl k EPOLL_CTL_DEL (data_fd cd)), s') ∧
           channels_ s' !! id = None ∧
           channel_fd_to_id_ s' !! data_fd cd = None ∧
           maps_consistent s').
Proof.
  intros Hc0 Hsteps.
  assert (Hc : maps_consistent s).
  { induction Hsteps as [| s1 s2 s3 Hstep _ IH]; [done |].
    apply IH. by eapply endpoint_step_consistent. }
  split; [done |]. split; [| split].
  - intros id1 id2 cd1 cd2. by apply maps_consistent_inj.
  - intros fd1 fd2 id H1 H2. destruct Hc as [_ Hrev].
    destruct (Hrev _ _ H1) as (cd1 & Hcd1 & <-).
    destruct (Hrev _ _ H2) as (cd2 & Hcd2 & <-). congruence.
  - intros k id cd Hcd.
    pose proof (CloseChannelLocked_run k id s) as Hrun. rewrite Hcd in Hrun.
    eexists. split; [exact Hrun |].
    split; [apply lookup_delete_eq |]. split; [apply lookup_delete_eq |].
    eapply (CloseChannelLocked_consistent k id s); [exact Hc | exact Hrun].
Qed.

(** ** Sample endpoints and kernels *)

Lemma sample_endpoint_consistent : maps_consistent sample_endpoint.
Proof. split; intros ? ? Hl; simpl in Hl; by rewrite lookup_empty in Hl. Qed.

Lemma channel_maps_consistent_witness :
  ∃ s, rtc endpoint_step sample_endpoint s ∧
       channels_ s !! 1 = None ∧ is_Some (channels_ s !! 2) ∧
       maps_consistent s.
Proof.
  assert (Hrun : ∃ s, rtc endpoint_step sample_endpoint s ∧
                      channels_ s !! 1 = None ∧ is_Some (channels_ s !! 2)).
  { eexists. split.
    - eapply rtc_l.
      { eapply (step_OnNewChannelLocked _ (sample_kernel default_request) 7 0).
        - apply (bool_decide_unpack _). vm_compute. exact I.
        - vm_compute. reflexivity. }
      eapply rtc_l.
      { eapply (step_PushChannel _ (sample_kernel default_request)
                  (new_Message (mkMessageInfo 1 1 1 1 1 1 7 0 0 0 0 0 0 []))
                  0 0).
        - apply (bool_decide_unpack _). vm_compute. exact I.
        - vm_compute. reflexivity. }
      eapply rtc_l.
      { eapply (step_CloseChannel _
                  (sample_kernel_epoll_fails default_request) 1).
        vm_compute. reflexivity. }
      apply rtc_refl.
    - split; [vm_compute; reflexivity |]. vm_compute. eexists. reflexivity. }
  destruct Hrun as (s & Hsteps & H1 & H2).
  exists s. split; [exact Hsteps |]. split; [exact H1 |]. split; [exact H2 |].
  apply (channel_maps_consistent sample_endpoint s sample_endpoint_consistent
           Hsteps).
Defined.

(** The premise of the registering steps is what descriptor ownership
    gives: [OnNewChannelLocked] takes its socket as an owning [LocalHandle]
    made from the result of [accept4] or [socketpair], and a number that a
    registered channel still owns is never handed out again by the kernel.
    Were the same number registered twice, [emplace] would keep the old
    reverse entry and the two maps would disagree. *)
Remark register_owned_descriptor_twice :
  ∃ s, (snd <$> (OnNewChannelLocked (sample_kernel default_request) 7 0
                   sample_endpoint_one_channel)) = Some s ∧
       channels_ s !! 2 = Some (mkChannelData 7 8 0) ∧
       channel_fd_to_id_ s !! 7 = Some 1.
Proof. eexists. split; [vm_compute; reflexivity |]. split; reflexivity. Qed.

(** ** Channel id allocation *)

(** A successful registration: the id is the first free one in scan order
    and the table gains exactly that entry. *)
Lemma OnNewChannelLocked_ok (k : Kernel) (fd chan_state id : Z)
    (cd : ChannelData) (s s' : Endpoint) :
  OnNewChannelLocked k fd chan_state s = Some (Ok (id, cd), s') →
  scan_channel_id (S (size (channels_ s))) (last_channel_id_ s) (channels_ s)
    = Some id ∧
  cd = mkChannelData fd (k_eventfd k) chan_state ∧
  channels_ s' = <[id := cd]> (channels_ s) ∧
  last_channel_id_ s' = id.
Proof.
  rewrite OnNewChannelLocked_run. simpl.
  destruct (k_epoll_ctl k EPOLL_CTL_ADD fd); [done |].
  destruct (scan_channel_id _ _ _) as [new_id |]; [| done].
  intros [= <- <- <-]. done.
Qed.

Lemma OnNewChannelLocked_error (k : Kernel) (fd chan_state : Z) (e : errno)
    (s s' : Endpoint) :
  OnNewChannelLocked k fd chan_state s = Some (ErrorStatus e, s') →
  table s' = table s.
Proof.
  rewrite OnNewChannelLocked_run. simpl.
  destruct (k_epoll_ctl k EPOLL_CTL_ADD fd); [by intros [= <- <-] |].
  by destruct (scan_channel_id _ _ _).
Qed.








(** Wrap-around: with the counter at [INT32_MAX] and id 1 still open, the
    next channel gets id 2. *)
Example channel_id_wraps :
  let s := mkEndpoint false 3 4 5 {[1 := mkChannelData 7 8 0]} {[7 := 1]}
             INT32_MAX 0 1 [] in
  fst <$> OnNewChannelLocked (sample_kernel default_request) 9 0 s
    = Some (Ok (2, mkChannelData 9 8 0)).
Proof. vm_compute. reflexivity. Qed.

(** ** Receiving a request *)

(** Unfold the monad in a goal and compute. *)
Ltac run_monad :=
  unfold mbind, M_bind, mret, M_ret, gets, modify, issue, diverge; simpl.

(** Sort the entries of an explicit log into old ones and new ones. *)
Ltac log_cases :=
  let c := fresh "c" in
  intros c; simpl; rewrite ?elem_of_app, ?elem_of_cons, ?elem_of_nil;
  intuition (subst; eauto 6).

Lemma BuildCloseMessage_run `{PdxHeaders} (channel_id : Z) (s : Endpoint) :
  BuildCloseMessage channel_id s =
  Some (new_Message
          (mkMessageInfo (-1) (-1) channel_id (to_int32 (next_message_id_ s))
             (-1) (-1) CHANNEL_CLOSE 0 (service_ s)
             (match channels_ s !! channel_id with
              | Some cd => channel_state cd
              | None => 0
              end) 0 0 0 []),
        set_next_message_id (to_uint32 (next_message_id_ s + 1)) s).
Proof. reflexivity. Qed.

Lemma on_receive_error_shutdown `{PdxHeaders} (k : Kernel) (channel_id : Z)
    (message : Message) (s : Endpoint) :
  on_receive_error k channel_id ESHUTDOWN message s =
  (close_message ← BuildCloseMessage channel_id;
   mret (Ok (), close_message)) s.
Proof. reflexivity. Qed.

Lemma on_receive_error_other `{PdxHeaders} (k : Kernel) (channel_id : Z)
    (e : errno) (message : Message) (s : Endpoint) :
  e ≠ ESHUTDOWN →
  on_receive_error k channel_id e message s =
  (CloseChannel k channel_id;; mret (ErrorStatus e, message)) s.
Proof. intros He. unfold on_receive_error. by destruct (decide (e = ESHUTDOWN)). Qed.

(** [ReceiveMessageForChannel] when reading the header fails. *)
Lemma ReceiveMessageForChannel_header_error `{PdxHeaders} (k : Kernel)
    (fd : Z) (message : Message) (s : Endpoint) (e : errno) :
  k_recv_request k fd = ErrorStatus e →
  ReceiveMessageForChannel k fd message s =
  on_receive_error k
    (match channel_fd_to_id_ s !! fd with Some id => id | None => -1 end)
    e message (set_syscalls (syscalls s ++ [sys_recv_request fd]) s).
Proof.
  intros Hreq. unfold ReceiveMessageForChannel, GetChannelId,
    ReceiveData_request.
  run_monad. by rewrite Hreq.
Qed.

(** [ReceiveMessageForChannel] when the header arrives and reading the
    payload of a request that is not an impulse fails. *)
Lemma ReceiveMessageForChannel_payload_error `{PdxHeaders} (k : Kernel)
    (fd : Z) (message : Message) (s : Endpoint) (req : RequestHeader)
    (e : errno) :
  k_recv_request k fd = Ok req →
  0 < rq_send_len req → rq_is_impulse req = false →
  k_recv_payload k fd (rq_send_len req) = ErrorStatus e →
  let channel_id :=
    match channel_fd_to_id_ s !! fd with Some id => id | None => -1 end in
  let s1 :=
    set_next_message_id (to_uint32 (next_message_id_ s + 1))
      (set_syscalls
         (syscalls s ++ [sys_recv_request fd;
                         sys_recv_payload fd (rq_send_len req)]) s) in
  let built := request_message req channel_id (to_int32 (next_message_id_ s)) s in
  ReceiveMessageForChannel k fd message s =
  on_receive_error k channel_id e
    (set_state
       (set_request_data (replicate (Z.to_nat (rq_send_len req)) x00)
          (state built)) built)
    s1.
Proof.
  intros Hreq Hlen Himp Hpay. unfold ReceiveMessageForChannel, GetChannelId,
    ReceiveData_request, ReceiveData_payload, GetNextAvailableMessageId,
    GetChannelState.
  run_monad. rewrite Hreq, Himp.
  assert (Hpos : (0 <? rq_send_len req) = true) by by apply Z.ltb_lt.
  rewrite Hpos. simpl. rewrite Hpay. simpl.
  rewrite <- app_assoc. reflexivity.
Qed.

Lemma on_receive_error_policy `{PdxHeaders} (k : Kernel) (id : Z)
    (cd : ChannelData) (e : errno) (message : Message) (s1 : Endpoint) :
  channels_ s1 !! id = Some cd →
  ∃ status m' s',
    on_receive_error k id e message s1 = Some ((status, m'), s') ∧
    (e = ESHUTDOWN →
       status = Ok () ∧
       op (info m') = CHANNEL_CLOSE ∧ cid (info m') = id ∧
       table s' = table s1 ∧ syscalls s' = syscalls s1) ∧
    (e ≠ ESHUTDOWN →
       status = ErrorStatus e ∧ m' = message ∧
       channels_ s' !! id = None ∧
       channel_fd_to_id_ s' !! data_fd cd = None ∧
       ∃ r, CloseChannel k id s1 = Some (r, s')).
Proof.
  intros Hcd. destruct (decide (e = ESHUTDOWN)) as [-> | Hne].
  - rewrite on_receive_error_shutdown. unfold mbind, M_bind.
    rewrite BuildCloseMessage_run. do 3 eexists. split; [reflexivity |].
    split; [done |]. intros Hne. done.
  - rewrite on_receive_error_other by done. unfold mbind, M_bind, CloseChannel.
    rewrite CloseChannelLocked_run, Hcd. do 3 eexists. split; [reflexivity |].
    split; [done |]. intros _. simpl. rewrite !lookup_delete_eq.
    repeat split. by eexists.
Qed.

(** C3: for a receive attempt on a registered channel, when reading the
    request header, or the payload of a request that is not an impulse,
    fails with [ESHUTDOWN], [ReceiveMessageForChannel] succeeds, the
    message is a close message ([CHANNEL_CLOSE]) for that channel's id, and
    the channel table is untouched (the channel stays registered, no
    [epoll_ctl] is issued); when the read fails with any other error, the
    channel is closed by [CloseChannel] (both table entries removed) and
    only then the error of the read is returned. *)
Theorem receive_failure_policy `{PdxHeaders} (k : Kernel) (fd id : Z)
    (cd : ChannelData) (message : Message) (s : Endpoint) (e : errno) :
  channel_fd_to_id_ s !! fd = Some id →
  channels_ s !! id = Some cd →
  (k_recv_request k fd = ErrorStatus e ∨
   ∃ req, k_recv_request k fd = Ok req ∧
          0 < rq_send_len req ∧ rq_is_impulse req = false ∧
          k_recv_payload k fd (rq_send_len req) = ErrorStatus e) →
  ∃ status m' s',
    ReceiveMessageForChannel k fd message s = Some ((status, m'), s') ∧
    (e = ESHUTDOWN →
       status = Ok () ∧
       op (info m') = CHANNEL_CLOSE ∧ cid (info m') = id ∧
       table s' = table s ∧
       ∀ o fd' events, sys_epoll_ctl o fd' events ∈ syscalls s' →
                       sys_epoll_ctl o fd' events ∈ syscalls s) ∧
    (e ≠ ESHUTDOWN →
       status = ErrorStatus e ∧
       channels_ s' !! id = None ∧
       channel_fd_to_id_ s' !! data_fd cd = None ∧
       ∃ s1 r, table s1 = table s ∧ CloseChannel k id s1 = Some (r, s')).
Proof.
  intros Hfd Hcd [Hreq | (req & Hreq & Hlen & Himp & Hpay)].
  - rewrite (ReceiveMessageForChannel_header_error k fd message s e Hreq), Hfd.
    set (s1 := set_syscalls (syscalls s ++ [sys_recv_request fd]) s).
    destruct (on_receive_error_policy k id cd e message s1 Hcd)
      as (status & m' & s' & Hrun & Hshut & Hother).
    exists status, m', s'. split; [exact Hrun |]. split.
    + intros He. destruct (Hshut He) as (-> & Hop & Hcid & Htable & Hsys).
      repeat split; try done.
      intros o fd' events. rewrite Hsys. simpl.
      intros [Hin | Hin%list_elem_of_singleton]%elem_of_app; done.
    + intros He. destruct (Hother He) as (-> & _ & Hch & Hrev & r & Hclose).
      repeat split; try done. by exists s1, r.
  - rewrite (ReceiveMessageForChannel_payload_error k fd message s req e
               Hreq Hlen Himp Hpay), Hfd.
    match goal with
    | |- context [on_receive_error k id e ?m ?st] =>
        set (built := m); set (s1 := st)
    end.
    destruct (on_receive_error_policy k id cd e built s1 Hcd)
      as (status & m' & s' & Hrun & Hshut & Hother).
    exists status, m', s'. split; [exact Hrun |]. split.
    + intros He. destruct (Hshut He) as (-> & Hop & Hcid & Htable & Hsys).
      repeat split; try done.
      intros o fd' events. rewrite Hsys. simpl.
      intros [Hin | Hin]%elem_of_app; [done |].
      apply elem_of_cons in Hin as [Hin | Hin%list_elem_of_singleton]; done.
    + intros He. destruct (Hother He) as (-> & _ & Hch & Hrev & r & Hclose).
      repeat split; try done. by exists s1, r.
Qed.

Lemma receive_failure_policy_witness :
  ∃ m' s',
    ReceiveMessageForChannel (sample_kernel_read_fails 104%positive) 7
      (new_Message (mkMessageInfo 0 0 0 0 0 0 0 0 0 0 0 0 0 []))
      sample_endpoint_one_channel
    = Some ((ErrorStatus 104%positive, m'), s') ∧
    channels_ s' !! 1 = None.
Proof.
  destruct (receive_failure_policy (sample_kernel_read_fails 104%positive) 7 1
              (mkChannelData 7 8 0)
              (new_Message (mkMessageInfo 0 0 0 0 0 0 0 0 0 0 0 0 0 []))
              sample_endpoint_one_channel 104%positive)
    as (status & m' & s' & Hrun & _ & Hother).
  - reflexivity.
  - reflexivity.
  - left. reflexivity.
  - destruct Hother as (-> & Hgone & _); [discriminate |].
    exists m', s'. split; [exact Hrun | exact Hgone].
Defined.

(** C6: for every request whose header arrives with the impulse flag set,
    whatever send length it declares, [ReceiveMessageForChannel] issues the
    header read, then at once the re-arming [epoll_ctl(EPOLL_CTL_MOD)] of
    the channel socket with the one-shot mask, and never a payload read
    (after the re-arm there is at most the [EPOLL_CTL_DEL] of a close).
    When the re-arm succeeds the call succeeds with the message built from
    the header; its id is [IMPULSE_MESSAGE_ID] and no message id was taken
    from the counter, and this also holds for the message left behind when
    the re-arm fails with an error other than [ESHUTDOWN]. *)
Theorem impulse_receive `{PdxHeaders} (k : Kernel) (fd : Z) (message : Message)
    (s : Endpoint) (req : RequestHeader) :
  k_recv_request k fd = Ok req →
  rq_is_impulse req = true →
  ∃ status m' s' rest,
    ReceiveMessageForChannel k fd message s = Some ((status, m'), s') ∧
    syscalls s' = syscalls s ++
                  [sys_recv_request fd;
                   sys_epoll_ctl EPOLL_CTL_MOD fd oneshot_events] ++ rest ∧
    (∀ c, c ∈ rest → ∃ fd', c = sys_epoll_ctl EPOLL_CTL_DEL fd' 0) ∧
    (∀ fd' n, sys_recv_payload fd' n ∈ syscalls s' →
              sys_recv_payload fd' n ∈ syscalls s) ∧
    (k_epoll_ctl k EPOLL_CTL_MOD fd = None →
       status = Ok () ∧ rest = [] ∧ table s' = table s ∧
       m' = request_message req
              (match channel_fd_to_id_ s !! fd with
               | Some id => id
               | None => -1
               end) IMPULSE_MESSAGE_ID s) ∧
    (k_epoll_ctl k EPOLL_CTL_MOD fd ≠ Some ESHUTDOWN →
       mid (info m') = IMPULSE_MESSAGE_ID ∧
       next_message_id_ s' = next_message_id_ s).
Proof.
  intros Hreq Himp.
  set (id := match channel_fd_to_id_ s !! fd with
             | Some id => id
             | None => -1
             end).
  set (s1 := set_syscalls
               (syscalls s ++ [sys_recv_request fd;
                               sys_epoll_ctl EPOLL_CTL_MOD fd oneshot_events])
               s).
  set (built := request_message req id IMPULSE_MESSAGE_ID s).
  assert (Hrun : ReceiveMessageForChannel k fd message s =
                 match k_epoll_ctl k EPOLL_CTL_MOD fd with
                 | Some e => on_receive_error k id e built s1
                 | None => Some ((Ok (), built), s1)
                 end).
  { unfold ReceiveMessageForChannel, GetChannelId, ReceiveData_request,
      GetChannelState, ReenableEpollEvent, epoll_ctl.
    run_monad. rewrite Hreq, Himp, andb_false_r. simpl.
    unfold s1. rewrite <- app_assoc. simpl.
    by destruct (k_epoll_ctl k EPOLL_CTL_MOD fd). }
  assert (Hnopay : ∀ l : list Syscall,
             (∀ c, c ∈ l →
                   c ∈ syscalls s ∨ c = sys_recv_request fd ∨
                   ∃ o fd' events, c = sys_epoll_ctl o fd' events) →
             ∀ fd' n, sys_recv_payload fd' n ∈ l →
                      sys_recv_payload fd' n ∈ syscalls s).
  { intros l Hl fd' n Hin.
    destruct (Hl _ Hin) as [? | [? | (? & ? & ? & ?)]]; done. }
  rewrite Hrun. destruct (k_epoll_ctl k EPOLL_CTL_MOD fd) as [e |] eqn:Hmod.
  - unfold on_receive_error. destruct (decide (e = ESHUTDOWN)) as [-> | Hne].
    + unfold mbind, M_bind. rewrite BuildCloseMessage_run.
      do 3 eexists. exists []. split; [reflexivity |].
      split; [reflexivity |]. split; [by intros c Hc%elem_of_nil |].
      split; [| split; [done | by intros []]].
      apply Hnopay. log_cases.
    + unfold mbind, M_bind, CloseChannel. rewrite CloseChannelLocked_run.
      destruct (channels_ s1 !! id) as [cd |] eqn:Hcd.
      * do 3 eexists. exists [sys_epoll_ctl EPOLL_CTL_DEL (data_fd cd) 0].
        split; [reflexivity |].
        split; [simpl; by rewrite <- app_assoc |].
        split; [intros c Hc%list_elem_of_singleton; by eexists |].
        split; [| split; [done | by intros _]].
        apply Hnopay. log_cases.
      * do 3 eexists. exists []. split; [reflexivity |].
        split; [reflexivity |]. split; [by intros c Hc%elem_of_nil |].
        split; [| split; [done | by intros _]].
        apply Hnopay. log_cases.
  - do 3 eexists. exists []. split; [reflexivity |].
    split; [reflexivity |]. split; [by intros c Hc%elem_of_nil |].
    split; [| split; [done | by intros _]].
    apply Hnopay. log_cases.
Qed.

Lemma impulse_receive_witness :
  let req := mkRequestHeader 5 (mkUcred 10 20 30) 100 0 [] [] [] true in
  ∃ m' s',
    ReceiveMessageForChannel (sample_kernel req) 7
      (new_Message (mkMessageInfo 0 0 0 0 0 0 0 0 0 0 0 0 0 []))
      sample_endpoint_one_channel
    = Some ((Ok (), m'), s') ∧
    syscalls s' = [sys_recv_request 7;
                   sys_epoll_ctl EPOLL_CTL_MOD 7 oneshot_events] ∧
    mid (info m') = -1.
Proof.
  intros req.
  destruct (impulse_receive (sample_kernel req) 7
              (new_Message (mkMessageInfo 0 0 0 0 0 0 0 0 0 0 0 0 0 []))
              sample_endpoint_one_channel req eq_refl eq_refl)
    as (status & m' & s' & rest & Hrun & Hlog & _ & _ & Hok & Hmid).
  destruct Hok as (-> & -> & _); [reflexivity |].
  destruct Hmid as [Hmid _]; [discriminate |].
  exists m', s'. split; [exact Hrun |]. split; [exact Hlog | exact Hmid].
Defined.

(** ** Replying to [CHANNEL_OPEN] *)

Lemma MessageReply_channel_open `{PdxHeaders} (k : Kernel) (message : Message)
    (return_code : Z) (s : Endpoint) (cd : ChannelData) :
  op (info message) = CHANNEL_OPEN → 0 ≤ return_code →
  channels_ s !! cid (info message) = Some cd →
  IsValid (data_fd cd) = true → IsValid (event_fd cd) = true →
  let hdr := channel_open_response message (event_fd cd) in
  let message' :=
    set_state
      (set_response hdr
         (set_response_data []
            (set_response
               (set_rs_file_descriptors (rs_file_descriptors hdr)
                  (response (state message))) (state message)))) message in
  let s1 := set_syscalls
              (syscalls s ++ [sys_send_response (data_fd cd) hdr]) s in
  MessageReply k message return_code s =
  match k_send_response k (data_fd cd) hdr with
  | Ok _ =>
      Some ((of_errno (k_epoll_ctl k EPOLL_CTL_MOD (data_fd cd)), message'),
            set_syscalls
              (syscalls s1 ++
               [sys_epoll_ctl EPOLL_CTL_MOD (data_fd cd) oneshot_events]) s1)
  | ErrorStatus e => Some ((ErrorStatus e, message'), s1)
  end.
Proof.
  intros Hop Hrc Hcd Hsock Hevent. simpl.
  assert (Hclose : (op (info message) =? CHANNEL_CLOSE) = false).
  { rewrite Hop. apply Z.eqb_neq, opcodes_distinct. }
  assert (Hopen : (op (info message) =? CHANNEL_OPEN) = true)
    by (rewrite Hop; apply Z.eqb_refl).
  assert (Hneg : (return_code <? 0) = false) by by apply Z.ltb_ge.
  unfold MessageReply, GetChannelSocketFd, GetChannelEventFd, PushFileHandle,
    send_reply, SendData_response, ReenableEpollEvent, epoll_ctl.
  run_monad. rewrite Hcd. simpl. rewrite Hsock, Hclose, Hopen, Hneg. simpl.
  rewrite Hcd. simpl. rewrite Hevent. simpl.
  unfold channel_open_response.
  destruct (k_send_response k (data_fd cd) _); reflexivity.
Qed.

(** C2 as stated fails: when the service has pushed a descriptor (20) onto
    the message before replying to [CHANNEL_OPEN] with return code 0, the
    response carries two references, [20; 8], and the return code is 1: the
    event descriptor 8 of the channel is not the single reply reference. *)
Lemma channel_open_reply_not_single :
  let message :=
    mkMessage (mkMessageInfo 10 (-1) 1 1 20 30 CHANNEL_OPEN 0 0 0 0 0 0 [])
      (snd (PushFileHandle 20 AllocateMessageState)) in
  ∃ m' s' hdr,
    op (info message) = CHANNEL_OPEN ∧
    MessageReply (sample_kernel default_request) message 0
      sample_endpoint_one_channel = Some ((Ok (), m'), s') ∧
    syscalls s' = [sys_send_response 7 hdr;
                   sys_epoll_ctl EPOLL_CTL_MOD 7 oneshot_events] ∧
    rs_file_descriptors hdr = [20; 8] ∧
    rs_file_descriptors hdr ≠ [8] ∧
    ret_code hdr = 1.
Proof.
  intros message. do 3 eexists.
  split; [reflexivity |]. split; [vm_compute; reflexivity |].
  split; [reflexivity |]. split; [reflexivity |]. split; [| reflexivity].
  simpl. congruence.
Qed.

(** C2, amended: for every message whose opcode is [CHANNEL_OPEN], on a
    registered channel with a valid socket and event descriptor, when
    [MessageReply] is called with a non-negative return code it discards
    the queued response payload (the header announces length 0 and no
    payload is sent), appends the channel's event descriptor to the reply
    references already pushed on the message, and sends the index of that
    reference, as the 16-bit [FileReference] that [PushFileHandle] returns,
    as the return code in place of the caller's: it is the index itself,
    and resolves to the event descriptor, while at most [INT16_MAX]
    references were queued before.  The event descriptor is the single
    reference, with index 0, when nothing had been pushed before.  The
    channel is not closed: the table is unchanged and after the header only
    the re-arming [epoll_ctl] may follow. *)
Theorem channel_open_reply `{PdxHeaders} (k : Kernel) (message : Message)
    (return_code : Z) (s : Endpoint) (cd : ChannelData) :
  op (info message) = CHANNEL_OPEN → 0 ≤ return_code →
  channels_ s !! cid (info message) = Some cd →
  IsValid (data_fd cd) = true → IsValid (event_fd cd) = true →
  let pushed := rs_file_descriptors (response (state message)) in
  ∃ status m' s' hdr rest,
    MessageReply k message return_code s = Some ((status, m'), s') ∧
    syscalls s' = syscalls s ++ sys_send_response (data_fd cd) hdr :: rest ∧
    (∀ c, c ∈ rest →
          c = sys_epoll_ctl EPOLL_CTL_MOD (data_fd cd) oneshot_events) ∧
    recv_len hdr = 0 ∧
    response_data (state m') = [] ∧
    rs_file_descriptors hdr = pushed ++ [event_fd cd] ∧
    ret_code hdr = to_int16 (Z.of_nat (length pushed)) ∧
    (Z.of_nat (length pushed) ≤ INT16_MAX →
       ret_code hdr = Z.of_nat (length pushed) ∧
       rs_file_descriptors hdr !! Z.to_nat (ret_code hdr)
         = Some (event_fd cd)) ∧
    (pushed = [] →
       rs_file_descriptors hdr = [event_fd cd] ∧ ret_code hdr = 0) ∧
    table s' = table s ∧
    channels_ s' !! cid (info message) = Some cd ∧
    (k_send_response k (data_fd cd) hdr = Ok () →
     k_epoll_ctl k EPOLL_CTL_MOD (data_fd cd) = None → status = Ok ()).
Proof.
  intros Hop Hrc Hcd Hsock Hevent pushed.
  pose proof (MessageReply_channel_open k message return_code s cd
                Hop Hrc Hcd Hsock Hevent) as Hrun.
  simpl in Hrun.
  set (hdr := channel_open_response message (event_fd cd)) in *.
  assert (Hret : ret_code hdr = to_int16 (Z.of_nat (length pushed))).
  { unfold hdr, channel_open_response. simpl. fold pushed.
    rewrite length_app. simpl. f_equal. lia. }
  assert (Hfacts :
    recv_len hdr = 0 ∧
    rs_file_descriptors hdr = pushed ++ [event_fd cd] ∧
    ret_code hdr = to_int16 (Z.of_nat (length pushed)) ∧
    (Z.of_nat (length pushed) ≤ INT16_MAX →
       ret_code hdr = Z.of_nat (length pushed) ∧
       rs_file_descriptors hdr !! Z.to_nat (ret_code hdr)
         = Some (event_fd cd)) ∧
    (pushed = [] →
       rs_file_descriptors hdr = [event_fd cd] ∧ ret_code hdr = 0)).
  { split; [done |]. split; [done |]. split; [done |]. split.
    - intros Hlen. rewrite Hret, to_int16_small by (unfold INT16_MAX in *; lia).
      split; [done |]. rewrite Nat2Z.id. simpl. fold pushed.
      by rewrite lookup_app_r, Nat.sub_diag.
    - intros Hnil. rewrite Hret. simpl. fold pushed. by rewrite Hnil. }
  destruct Hfacts as (Hlen0 & Hfds & _ & Hsmall & Hsingle).
  destruct (k_send_response k (data_fd cd) hdr) as [[] | e] eqn:Hsend.
  - do 3 eexists.
    exists hdr, [sys_epoll_ctl EPOLL_CTL_MOD (data_fd cd) oneshot_events].
    split; [exact Hrun |]. simpl.
    split; [by rewrite <- app_assoc |].
    split; [by intros c Hc%list_elem_of_singleton |].
    repeat (split; [done |]).
    intros _ ->. done.
  - do 3 eexists. exists hdr, [].
    split; [exact Hrun |]. simpl.
    split; [done |].
    split; [by intros c Hc%elem_of_nil |].
    repeat (split; [done |]).
    intros Hok. rewrite Hsend in Hok. discriminate.
Qed.

Lemma channel_open_reply_witness :
  let message :=
    new_Message (mkMessageInfo 10 (-1) 1 1 20 30 CHANNEL_OPEN 0 0 0 0 0 0 []) in
  ∃ m' s' hdr,
    MessageReply (sample_kernel default_request) message 0
      sample_endpoint_one_channel = Some ((Ok (), m'), s') ∧
    syscalls s' = [sys_send_response 7 hdr;
                   sys_epoll_ctl EPOLL_CTL_MOD 7 oneshot_events] ∧
    rs_file_descriptors hdr = [8] ∧ ret_code hdr = 0 ∧
    channels_ s' !! 1 = Some (mkChannelData 7 8 0).
Proof.
  intros message.
  assert (Hrc : 0 ≤ 0) by lia.
  destruct (channel_open_reply (sample_kernel default_request) message 0
              sample_endpoint_one_channel (mkChannelData 7 8 0)
              eq_refl Hrc eq_refl eq_refl eq_refl)
    as (status & m' & s' & hdr & rest & Hrun & Hlog & Hrest & _ & _ & _ & _ & _
        & Hsingle & _ & Hopen & Hstatus).
  destruct (Hsingle eq_refl) as [Hfds Hret].
  rewrite (Hstatus eq_refl eq_refl) in Hrun.
  exists m', s', hdr. split; [exact Hrun |].
  assert (Hlog' : syscalls s' = [sys_send_response 7 hdr;
                                 sys_epoll_ctl EPOLL_CTL_MOD 7 oneshot_events]).
  { assert (Hcompute : snd <$> MessageReply (sample_kernel default_request)
                                 message 0 sample_endpoint_one_channel
                       = Some s') by by rewrite Hrun.
    vm_compute in Hcompute. injection Hcompute as <-.
    simpl in Hlog. injection Hlog as -> _. reflexivity. }
  split; [exact Hlog' |]. split; [exact Hfds |]. split; [exact Hret | exact Hopen].
Defined.

(** ** The accept branch of [MessageReceive] *)

(** When the ready descriptor is the listening socket, [MessageReceive]
    runs [AcceptConnection]; if that succeeds it re-arms the listening
    socket, and if that fails it returns the error at once, in the state
    [AcceptConnection] left. *)
Lemma MessageReceive_accept_branch `{PdxHeaders} (k : Kernel)
    (message : Message) (s : Endpoint) (events : Z) (status : Status ())
    (m1 : Message) (s1 : Endpoint) :
  k_epoll_wait k = wait_event (socket_fd_ s) events →
  socket_fd_ s ≠ cancel_event_fd_ s →
  AcceptConnection k message
    (set_syscalls
       (syscalls s ++ [sys_epoll_wait (if is_blocking_ s then -1 else 0)]) s)
    = Some ((status, m1), s1) →
  MessageReceive k message s =
  match status with
  | Ok _ =>
      Some ((of_errno (k_epoll_ctl k EPOLL_CTL_MOD (socket_fd_ s)), m1),
            set_syscalls
              (syscalls s1 ++
               [sys_epoll_ctl EPOLL_CTL_MOD (socket_fd_ s) oneshot_events]) s1)
  | ErrorStatus e => Some ((ErrorStatus e, m1), s1)
  end.
Proof.
  intros Hwait Hcancel Haccept.
  unfold MessageReceive. run_monad. rewrite Hwait. simpl.
  assert (Hne : (socket_fd_ s =? cancel_event_fd_ s) = false)
    by by apply Z.eqb_neq.
  rewrite Hne, Z.eqb_refl. unfold mbind, M_bind.
  rewrite Haccept.
  by destruct status as [[] | e].
Qed.

(** C5: the accept branch re-arms the listening socket only when
    [AcceptConnection] succeeds.  On a new endpoint (listening socket 3)
    whose listening socket is reported ready: when the accepted connection
    delivers a request, the calls are [accept4] (once), [SO_PASSCRED] on the
    new socket 7, its registration, the read of the request, and last the
    re-arming [EPOLL_CTL_MOD] of socket 3; when the read of the first
    request fails with [EIO], or when [accept4] itself fails, the error is
    returned and no [EPOLL_CTL_MOD] of the listening socket is issued. *)
Theorem accept_failure_skips_rearm :
  let message := new_Message (mkMessageInfo 0 0 0 0 0 0 0 0 0 0 0 0 0 []) in
  let req := mkRequestHeader 5 (mkUcred 10 20 30) 2 0 [] [] [] false in
  let accept_fails :=
    mkKernel (wait_event 3 EPOLLIN) (-1, 24%positive) (λ _, None) (None, 9, 10)
      8 (λ _ _, None) (λ _, Ok req) (λ _ _, Ok []) (λ _ _, Ok ())
      (λ _ _, Ok ()) in
  (∃ m' s',
     MessageReceive (sample_kernel req) message sample_endpoint
       = Some ((Ok (), m'), s') ∧
     syscalls s' = [sys_epoll_wait 0; sys_accept4 3; sys_setsockopt_passcred 7;
                    sys_epoll_ctl EPOLL_CTL_ADD 7 oneshot_events;
                    sys_recv_request 7; sys_recv_payload 7 2;
                    sys_epoll_ctl EPOLL_CTL_MOD 3 oneshot_events]) ∧
  (∃ m' s',
     MessageReceive (sample_kernel_read_fails 5%positive) message
       sample_endpoint = Some ((ErrorStatus 5%positive, m'), s') ∧
     syscalls s' = [sys_epoll_wait 0; sys_accept4 3; sys_setsockopt_passcred 7;
                    sys_epoll_ctl EPOLL_CTL_ADD 7 oneshot_events;
                    sys_recv_request 7;
                    sys_epoll_ctl EPOLL_CTL_DEL 7 0] ∧
     ∀ events, sys_epoll_ctl EPOLL_CTL_MOD 3 events ∉ syscalls s') ∧
  (∃ m' s',
     MessageReceive accept_fails message sample_endpoint
       = Some ((ErrorStatus 24%positive, m'), s') ∧
     syscalls s' = [sys_epoll_wait 0; sys_accept4 3] ∧
     ∀ events, sys_epoll_ctl EPOLL_CTL_MOD 3 events ∉ syscalls s').
Proof.
  intros message req accept_fails. split; [| split].
  - do 2 eexists. split; [vm_compute; reflexivity | reflexivity].
  - do 2 eexists. split; [vm_compute; reflexivity |].
    split; [reflexivity |].
    intros events. simpl. rewrite !elem_of_cons, elem_of_nil.
    intros [Hin | [Hin | [Hin | [Hin | [Hin | [Hin | []]]]]]]; discriminate.
  - do 2 eexists. split; [vm_compute; reflexivity |].
    split; [reflexivity |].
    intros events. simpl. rewrite !elem_of_cons, elem_of_nil.
    intros [Hin | [Hin | []]]; discriminate.
Qed.

(** ** The other outcomes of [MessageReceive] on sample inputs *)

(** Nothing ready on a non-blocking endpoint: [ETIMEDOUT], after a poll
    with timeout 0. *)
Example MessageReceive_nothing_ready :
  let message := new_Message (mkMessageInfo 0 0 0 0 0 0 0 0 0 0 0 0 0 []) in
  let k := mkKernel wait_nothing (7, 1%positive) (λ _, None) (None, 9, 10) 8
             (λ _ _, None) (λ _, Ok default_request) (λ _ _, Ok [])
             (λ _ _, Ok ()) (λ _ _, Ok ()) in
  MessageReceive k message sample_endpoint
  = Some ((ErrorStatus ETIMEDOUT, message),
          set_syscalls [sys_epoll_wait 0] sample_endpoint).
Proof. reflexivity. Qed.

(** The cancel event is ready: [ESHUTDOWN], and nothing else happens. *)
Example MessageReceive_cancelled :
  let message := new_Message (mkMessageInfo 0 0 0 0 0 0 0 0 0 0 0 0 0 []) in
  let k := mkKernel (wait_event 4 EPOLLIN) (7, 1%positive) (λ _, None)
             (None, 9, 10) 8 (λ _ _, None) (λ _, Ok default_request)
             (λ _ _, Ok []) (λ _ _, Ok ()) (λ _ _, Ok ()) in
  MessageReceive k message sample_endpoint_one_channel
  = Some ((ErrorStatus ESHUTDOWN, message),
          set_syscalls [sys_epoll_wait 0] sample_endpoint_one_channel).
Proof. reflexivity. Qed.

(** A hang-up on channel socket 7: a close message for channel 1, without
    reading from the socket and without closing the channel. *)
Example MessageReceive_hangup :
  let message := new_Message (mkMessageInfo 0 0 0 0 0 0 0 0 0 0 0 0 0 []) in
  let k := mkKernel (wait_event 7 (Z.lor EPOLLIN EPOLLRDHUP)) (7, 1%positive)
             (λ _, None) (None, 9, 10) 8 (λ _ _, None)
             (λ _, Ok default_request) (λ _ _, Ok []) (λ _ _, Ok ())
             (λ _ _, Ok ()) in
  MessageReceive k message sample_endpoint_one_channel
  = Some ((Ok (),
           new_Message
             (mkMessageInfo (-1) (-1) 1 1 (-1) (-1) CHANNEL_CLOSE 0 0 0 0 0 0
                [])),
          set_next_message_id 2
            (set_syscalls [sys_epoll_wait 0] sample_endpoint_one_channel)).
Proof. reflexivity. Qed.

(** * Further properties of the endpoint *)

(** ** Writing and reading the message payload *)

Lemma to_uint64_small (z : Z) : 0 ≤ z < 2 ^ 64 → to_uint64 z = z.
Proof. intros Hz. unfold to_uint64. by rewrite Z.mod_small. Qed.

Lemma write_loop_spec (vector : list (list byte)) (size : Z) (data : list byte) :
  0 ≤ size < 2 ^ 64 →
  write_loop vector size data
  = (to_uint64 (size + Z.of_nat (length (concat vector))),
     data ++ concat vector).
Proof.
  revert size data. induction vector as [| buffer rest IH]; intros size data Hs.
  - simpl. by rewrite Z.add_0_r, to_uint64_small, app_nil_r.
  - simpl. rewrite IH.
    + rewrite length_app, <- app_assoc. f_equal. unfold to_uint64.
      rewrite Zplus_mod_idemp_l. f_equal. lia.
    + unfold to_uint64. apply Z.mod_pos_bound. lia.
Qed.

(** X1: [WriteMessageData] appends the buffers, in order, to the queued
    response payload and touches nothing else in the message; it returns
    their total length (as a [size_t]); and writing two buffer arrays one
    after the other leaves the same message as writing their
    concatenation. *)
Theorem WriteMessageData_appends (message : Message)
    (vector more : list (list byte)) :
  let written := WriteMessageData message vector in
  fst written = Ok (to_uint64 (Z.of_nat (length (concat vector)))) ∧
  (Z.of_nat (length (concat vector)) < 2 ^ 64 →
   fst written = Ok (Z.of_nat (length (concat vector)))) ∧
  snd written
  = set_state
      (set_response_data (response_data (state message) ++ concat vector)
         (state message)) message ∧
  snd (WriteMessageData (snd written) more)
  = snd (WriteMessageData message (vector ++ more)).
Proof.
  assert (Hrun : ∀ m v,
             WriteMessageData m v
             = (Ok (to_uint64 (Z.of_nat (length (concat v)))),
                set_state
                  (set_response_data (response_data (state m) ++ concat v)
                     (state m)) m)).
  { intros m v. unfold WriteMessageData, WriteData.
    by rewrite write_loop_spec. }
  simpl. rewrite !Hrun. simpl.
  split; [done |]. split.
  - intros Hlen. rewrite to_uint64_small; [done | lia].
  - split; [done |]. unfold set_state, set_response_data. simpl.
    by rewrite concat_app, app_assoc.
Qed.

Lemma take_take_drop_Z (data : list byte) (pos a b : Z) :
  0 ≤ pos → 0 ≤ a → 0 ≤ b →
  take (Z.to_nat a) (drop (Z.to_nat pos) data)
  ++ take (Z.to_nat b) (drop (Z.to_nat (pos + a)) data)
  = take (Z.to_nat (a + b)) (drop (Z.to_nat pos) data).
Proof.
  intros Hpos Ha Hb.
  rewrite (Z2Nat.inj_add a b), (Z2Nat.inj_add pos a) by done.
  rewrite <- drop_drop. apply take_take_drop.
Qed.

(** What the loop of [ReadData] computes when the read position is inside
    the payload. *)
Lemma read_loop_spec (vector : list nat) (data : list byte)
    (pos size_remaining size : Z) :
  0 ≤ pos → 0 ≤ size_remaining →
  let n := Z.min size_remaining (Z.of_nat (sum_list vector)) in
  ∃ chunks,
    read_loop vector data pos size_remaining size = (size + n, pos + n, chunks) ∧
    concat chunks = take (Z.to_nat n) (drop (Z.to_nat pos) data) ∧
    Forall2 (λ chunk iov_len, (length chunk ≤ iov_len)%nat) chunks
      (take (length chunks) vector).
Proof.
  revert pos size_remaining size.
  induction vector as [| iov_len rest IH]; intros pos rem size Hpos Hrem; simpl.
  - exists []. rewrite Z.min_r by lia. rewrite !Z.add_0_r. by repeat split.
  - destruct (Z.ltb_spec 0 rem) as [Hlt | Hge].
    + set (c := Z.min rem (Z.of_nat iov_len)).
      destruct (IH (pos + c) (rem - c) (size + c) ltac:(lia) ltac:(lia))
        as (chunks & -> & Hbytes & Hfit).
      eexists. split; [| split].
      * f_equal. f_equal; unfold c; lia.
      * simpl. rewrite Hbytes.
        rewrite take_take_drop_Z by (unfold c; lia).
        do 2 f_equal. unfold c. lia.
      * simpl. constructor; [| done].
        rewrite length_take. unfold c. lia.
    + exists []. assert (rem = 0) as -> by lia.
      rewrite Z.min_l by lia. rewrite !Z.add_0_r. by repeat split.
Qed.

Lemma ReadMessageData_run (message : Message) (vector : list nat) :
  let data := request_data (state message) in
  let pos := request_data_read_pos (state message) in
  0 ≤ pos ≤ Z.of_nat (length data) → Z.of_nat (length data) < 2 ^ 64 →
  let n := Z.min (Z.of_nat (length data) - pos) (Z.of_nat (sum_list vector)) in
  ∃ chunks,
    ReadMessageData message vector
    = (Ok n, chunks,
       set_state (set_request_data_read_pos (pos + n) (state message)) message) ∧
    concat chunks = take (Z.to_nat n) (drop (Z.to_nat pos) data) ∧
    Forall2 (λ chunk iov_len, (length chunk ≤ iov_len)%nat) chunks
      (take (length chunks) vector).
Proof.
  intros data pos Hpos Hlen n.
  unfold ReadMessageData, ReadData. fold data pos.
  rewrite to_uint64_small by lia.
  destruct (read_loop_spec vector data pos (Z.of_nat (length data) - pos) 0
              ltac:(lia) ltac:(lia)) as (chunks & -> & Hbytes & Hfit).
  exists chunks. by repeat split.
Qed.

(** X2: with the read position inside the payload, [ReadMessageData]
    returns the smaller of the number of unread bytes and the total
    capacity of the buffers, stores exactly the next that many payload
    bytes, never more into a buffer than its [iov_len], advances the read
    position by the returned size (so it stays inside the payload) and
    leaves the payload itself unchanged; at the end of the payload it
    returns 0. *)
Theorem ReadMessageData_slice (message : Message) (vector : list nat) :
  let data := request_data (state message) in
  let pos := request_data_read_pos (state message) in
  0 ≤ pos ≤ Z.of_nat (length data) → Z.of_nat (length data) < 2 ^ 64 →
  ∃ n chunks message',
    ReadMessageData message vector = (Ok n, chunks, message') ∧
    n = Z.min (Z.of_nat (length data) - pos) (Z.of_nat (sum_list vector)) ∧
    concat chunks = take (Z.to_nat n) (drop (Z.to_nat pos) data) ∧
    Forall2 (λ chunk iov_len, (length chunk ≤ iov_len)%nat) chunks
      (take (length chunks) vector) ∧
    request_data_read_pos (state message') = pos + n ∧
    0 ≤ request_data_read_pos (state message') ≤ Z.of_nat (length data) ∧
    request_data (state message') = data ∧
    (pos = Z.of_nat (length data) → n = 0 ∧ concat chunks = []).
Proof.
  intros data pos Hpos Hlen.
  destruct (ReadMessageData_run message vector Hpos Hlen)
    as (chunks & Hrun & Hbytes & Hfit).
  fold data pos in Hrun, Hbytes.
  do 3 eexists. split; [exact Hrun |]. split; [done |].
  split; [exact Hbytes |]. split; [exact Hfit |]. simpl.
  split; [done |]. split; [lia |]. split; [done |].
  intros Hend. rewrite Hbytes.
  assert (Hzero : Z.min (Z.of_nat (length data) - pos)
                    (Z.of_nat (sum_list vector)) = 0) by lia.
  by rewrite Hzero.
Qed.

Lemma ReadMessageData_slice_witness :
  let message :=
    mkMessage (mkMessageInfo 1 1 1 1 1 1 7 0 0 0 5 0 0 [])
      (set_request_data [x01; x02; x03; x04; x05] AllocateMessageState) in
  ∃ message',
    ReadMessageData message [2; 0; 1]%nat
    = (Ok 3, [[x01; x02]; []; [x03]], message') ∧
    request_data_read_pos (state message') = 3.
Proof.
  intros message.
  assert (Hpos : 0 ≤ request_data_read_pos (state message)
                 ≤ Z.of_nat (length (request_data (state message))))
    by (simpl; lia).
  assert (Hlen : Z.of_nat (length (request_data (state message))) < 2 ^ 64)
    by (simpl; lia).
  destruct (ReadMessageData_slice message [2; 0; 1]%nat Hpos Hlen)
    as (n & chunks & message' & Hrun & _ & _ & _ & Hnew & _).
  vm_compute in Hrun. injection Hrun as <- <- <-.
  eexists. split; reflexivity.
Defined.

(** X3: reading with two buffer arrays one after the other delivers the
    same bytes, returns the same total and leaves the same message as one
    read with the concatenated array. *)
Theorem ReadMessageData_twice (message : Message) (vector more : list nat) :
  let data := request_data (state message) in
  let pos := request_data_read_pos (state message) in
  0 ≤ pos ≤ Z.of_nat (length data) → Z.of_nat (length data) < 2 ^ 64 →
  ∃ n1 chunks1 message1 n2 chunks2 message2 n chunks,
    ReadMessageData message vector = (Ok n1, chunks1, message1) ∧
    ReadMessageData message1 more = (Ok n2, chunks2, message2) ∧
    ReadMessageData message (vector ++ more) = (Ok n, chunks, message2) ∧
    n = n1 + n2 ∧
    concat chunks = concat chunks1 ++ concat chunks2.
Proof.
  intros data pos Hpos Hlen.
  destruct (ReadMessageData_run message vector Hpos Hlen)
    as (chunks1 & Hrun1 & Hbytes1 & _).
  fold data pos in Hrun1, Hbytes1.
  set (n1 := Z.min (Z.of_nat (length data) - pos)
               (Z.of_nat (sum_list vector))) in *.
  set (message1 := set_state
                     (set_request_data_read_pos (pos + n1) (state message))
                     message) in *.
  assert (Hpos1 : 0 ≤ request_data_read_pos (state message1)
                  ≤ Z.of_nat (length (request_data (state message1))))
    by (simpl; fold data; lia).
  destruct (ReadMessageData_run message1 more Hpos1 Hlen)
    as (chunks2 & Hrun2 & Hbytes2 & _).
  simpl in Hrun2, Hbytes2. fold data in Hrun2, Hbytes2.
  set (n2 := Z.min (Z.of_nat (length data) - (pos + n1))
               (Z.of_nat (sum_list more))) in *.
  destruct (ReadMessageData_run message (vector ++ more) Hpos Hlen)
    as (chunks & Hrun & Hbytes & _).
  fold data pos in Hrun, Hbytes.
  assert (Hsum : Z.min (Z.of_nat (length data) - pos)
                   (Z.of_nat (sum_list (vector ++ more))) = n1 + n2).
  { rewrite sum_list_with_app. unfold n1, n2. lia. }
  rewrite Hsum in Hrun, Hbytes.
  exists n1, chunks1, message1, n2, chunks2.
  eexists. exists (n1 + n2), chunks.
  split; [exact Hrun1 |]. split; [exact Hrun2 |]. split.
  - rewrite Hrun. unfold message1, set_state, set_request_data_read_pos.
    simpl. by rewrite Z.add_assoc.
  - split; [done |]. rewrite Hbytes, Hbytes1, Hbytes2.
    symmetry. apply take_take_drop_Z; unfold n1, n2; lia.
Qed.

Lemma ReadMessageData_twice_witness :
  let message :=
    mkMessage (mkMessageInfo 1 1 1 1 1 1 7 0 0 0 5 0 0 [])
      (set_request_data [x01; x02; x03; x04; x05] AllocateMessageState) in
  ∃ message2,
    ReadMessageData message [2; 2; 4]%nat
    = (Ok 5, [[x01; x02]; [x03; x04]; [x05]], message2) ∧
    snd (ReadMessageData (snd (ReadMessageData message [2]%nat)) [2; 4]%nat)
    = message2.
Proof.
  intros message.
  assert (Hpos : 0 ≤ request_data_read_pos (state message)
                 ≤ Z.of_nat (length (request_data (state message))))
    by (simpl; lia).
  assert (Hlen : Z.of_nat (length (request_data (state message))) < 2 ^ 64)
    by (simpl; lia).
  destruct (ReadMessageData_twice message [2]%nat [2; 4]%nat Hpos Hlen)
    as (n1 & c1 & m1 & n2 & c2 & m2 & n & c & Hrun1 & Hrun2 & Hrun & _).
  exists m2. change ([2; 2; 4]%nat) with ([2]%nat ++ [2; 4]%nat).
  rewrite Hrun1. simpl snd. rewrite Hrun2. simpl snd.
  split; [| reflexivity].
  rewrite Hrun. vm_compute in Hrun. injection Hrun as <- <- _. reflexivity.
Defined.

(** ** Pushing file references *)

Lemma Endpoint_PushFileHandle_run (message : Message) (handle : LocalHandle) :
  Endpoint_PushFileHandle message handle =
  if IsValid handle then
    (Ok (to_int16
           (Z.of_nat (length (rs_file_descriptors (response (state message)))))),
     set_state
       (set_response
          (set_rs_file_descriptors
             (rs_file_descriptors (response (state message)) ++ [handle])
             (response (state message))) (state message)) message)
  else (Ok (to_int16 handle), message).
Proof.
  unfold Endpoint_PushFileHandle, PushFileHandle.
  destruct (IsValid handle); simpl.
  - rewrite length_app. simpl. do 3 f_equal. lia.
  - by rewrite set_state_same.
Qed.

Lemma push_file_handles_descriptors (handles : list LocalHandle)
    (message : Message) :
  rs_file_descriptors (response (state (push_file_handles handles message)))
  = rs_file_descriptors (response (state message))
    ++ filter (λ handle, IsValid handle = true) handles.
Proof.
  revert message. induction handles as [| handle rest IH]; intros message.
  - simpl. by rewrite app_nil_r.
  - change (push_file_handles (handle :: rest) message)
      with (push_file_handles rest (snd (Endpoint_PushFileHandle message handle))).
    rewrite IH, Endpoint_PushFileHandle_run, filter_cons.
    destruct (IsValid handle) eqn:Hvalid; simpl; [by rewrite <- app_assoc |].
    done.
Qed.

(** X4: pushing a valid file handle queues it behind the references
    already on the message and returns its position as a 16-bit
    [FileReference]: while at most [INT16_MAX] references were queued
    before, the reference is the position itself, and whatever handles are
    pushed afterwards it still finds that handle; with more references
    queued the returned reference is no longer the position.  Pushing an
    invalid handle queues nothing, leaves the message as it was and
    returns, as a value and not as an error, the number the handle carries
    reduced to 16 bits, which is that number itself only from -32768 on. *)
Theorem pushed_file_reference_stable (message : Message) (handle : LocalHandle)
    (later : list LocalHandle) :
  let old := rs_file_descriptors (response (state message)) in
  let pushed := Endpoint_PushFileHandle message handle in
  (IsValid handle = false →
     pushed = (Ok (to_int16 handle), message) ∧
     (- 2 ^ 15 ≤ handle → fst pushed = Ok handle)) ∧
  (IsValid handle = true →
     fst pushed = Ok (to_int16 (Z.of_nat (length old))) ∧
     rs_file_descriptors (response (state (snd pushed))) = old ++ [handle] ∧
     response_data (state (snd pushed)) = response_data (state message) ∧
     (Z.of_nat (length old) ≤ INT16_MAX →
      ∃ ref, fst pushed = Ok ref ∧ ref = Z.of_nat (length old) ∧
        rs_file_descriptors
          (response (state (push_file_handles later (snd pushed))))
          !! Z.to_nat ref = Some handle) ∧
     (INT16_MAX < Z.of_nat (length old) →
      fst pushed ≠ Ok (Z.of_nat (length old)))).
Proof.
  intros old pushed. unfold pushed. rewrite Endpoint_PushFileHandle_run.
  split; intros Hvalid; rewrite Hvalid.
  - split; [done |]. intros Hlow. simpl. f_equal.
    apply to_int16_small. unfold IsValid in Hvalid.
    apply Z.leb_gt in Hvalid. lia.
  - simpl. fold old.
    split; [done |]. split; [done |]. split; [done |]. split.
    + intros Hlen. exists (Z.of_nat (length old)).
      split; [| split; [done |]].
      * f_equal. apply to_int16_small. unfold INT16_MAX in *. lia.
      * rewrite push_file_handles_descriptors. simpl. fold old.
        rewrite Nat2Z.id, <- app_assoc, lookup_app_r by done.
        by rewrite Nat.sub_diag.
    + intros Hlen Heq. injection Heq as Heq.
      pose proof (to_int16_range (Z.of_nat (length old))). lia.
Qed.

Lemma pushed_file_reference_stable_witness :
  let message := new_Message (mkMessageInfo 1 1 1 1 1 1 7 0 0 0 0 0 0 []) in
  let pushed := Endpoint_PushFileHandle (push_file_handles [20; 21] message) 22 in
  fst pushed = Ok 2 ∧
  rs_file_descriptors
    (response (state (push_file_handles [-1; 23] (snd pushed)))) !! 2%nat
  = Some 22 ∧
  Endpoint_PushFileHandle message (-40000) = (Ok 25536, message) ∧
  fst (Endpoint_PushFileHandle message (-22)) = Ok (-22).
Proof.
  intros message pushed.
  destruct (pushed_file_reference_stable (push_file_handles [20; 21] message)
              22 [-1; 23]) as [_ Hvalid].
  destruct (Hvalid eq_refl) as (_ & _ & _ & Hindex & _).
  destruct Hindex as (ref & Href & -> & Hstable);
    [simpl; unfold INT16_MAX; lia |].
  split; [exact Href |]. split; [exact Hstable |].
  destruct (pushed_file_reference_stable message (-40000) []) as [Hfar _].
  destruct (pushed_file_reference_stable message (-22) []) as [Hnear _].
  split; [exact (proj1 (Hfar eq_refl)) |].
  apply (proj2 (Hnear eq_refl)). lia.
Defined.

(** ** Closing, registering and looking up channels *)

(** X5: closing a channel id that is not in the table fails with [EINVAL]
    and changes nothing, without any system call; whatever a first
    [CloseChannel] of an id returned, a second one fails in that way. *)
Theorem CloseChannel_twice (k k' : Kernel) (channel_id : Z) (s : Endpoint) :
  ∃ r s1,
    CloseChannel k channel_id s = Some (r, s1) ∧
    (channels_ s !! channel_id = None → r = ErrorStatus EINVAL ∧ s1 = s) ∧
    channels_ s1 !! channel_id = None ∧
    CloseChannel k' channel_id s1 = Some (ErrorStatus EINVAL, s1).
Proof.
  unfold CloseChannel. rewrite CloseChannelLocked_run.
  destruct (channels_ s !! channel_id) as [cd |] eqn:Hcd.
  - do 2 eexists. split; [reflexivity |]. split; [done |].
    assert (Hgone : delete channel_id (channels_ s) !! channel_id = None)
      by apply lookup_delete_eq.
    split; [exact Hgone |].
    rewrite CloseChannelLocked_run. simpl. by rewrite Hgone.
  - do 2 eexists. split; [reflexivity |]. split; [done |].
    split; [done |]. by rewrite CloseChannelLocked_run, Hcd.
Qed.

(** X6: after [OnNewChannelLocked] has registered a socket that had no
    reverse entry, the lookups find the new channel: [GetChannelId] of the
    socket is the new id, and [GetChannelSocketFd], [GetChannelEventFd] and
    [GetChannelState] of that id give the socket, the event descriptor and
    the state passed in; the entries of all other ids and sockets are as
    before. *)
Theorem register_then_lookup `{PdxHeaders} (k : Kernel) (fd chan_state id : Z)
    (cd : ChannelData) (s s' : Endpoint) :
  channel_fd_to_id_ s !! fd = None →
  OnNewChannelLocked k fd chan_state s = Some (Ok (id, cd), s') →
  GetChannelId fd s' = Some (id, s') ∧
  GetChannelSocketFd id s' = Some (fd, s') ∧
  GetChannelEventFd id s' = Some (k_eventfd k, s') ∧
  GetChannelState id s' = Some (chan_state, s') ∧
  (∀ id', id' ≠ id → channels_ s' !! id' = channels_ s !! id') ∧
  (∀ fd', fd' ≠ fd → channel_fd_to_id_ s' !! fd' = channel_fd_to_id_ s !! fd').
Proof.
  intros Hfresh Hrun. rewrite OnNewChannelLocked_run in Hrun. simpl in Hrun.
  destruct (k_epoll_ctl k EPOLL_CTL_ADD fd); [done |].
  destruct (scan_channel_id _ _ _) as [new_id |]; [| done].
  injection Hrun as <- <- <-.
  unfold GetChannelId, GetChannelSocketFd, GetChannelEventFd, GetChannelState,
    gets, map_emplace. simpl. rewrite Hfresh, !lookup_insert_eq. simpl.
  repeat split.
  - intros id' Hne. by rewrite lookup_insert_ne.
  - intros fd' Hne. by rewrite lookup_insert_ne.
Qed.

Lemma register_then_lookup_witness :
  ∃ s', fst <$> OnNewChannelLocked (sample_kernel default_request) 9 5
                  sample_endpoint_one_channel
        = Some (Ok (2, mkChannelData 9 8 5)) ∧
        GetChannelId 9 s' = Some (2, s') ∧
        GetChannelState 2 s' = Some (5, s').
Proof.
  destruct (OnNewChannelLocked (sample_kernel default_request) 9 5
              sample_endpoint_one_channel) as [[r s'] |] eqn:Hrun;
    [| vm_compute in Hrun; discriminate].
  assert (Hr : r = Ok (2, mkChannelData 9 8 5)).
  { vm_compute in Hrun. by injection Hrun as <- _. }
  subst r. exists s'.
  destruct (register_then_lookup (sample_kernel default_request) 9 5 2
              (mkChannelData 9 8 5) sample_endpoint_one_channel s' eq_refl Hrun)
    as (Hid & _ & _ & Hstate & _).
  split; [reflexivity |]. split; [exact Hid | exact Hstate].
Defined.

(** X7: closing a channel right after [OnNewChannelLocked] registered it
    puts both maps back to what they were before the registration,
    whatever the two [epoll_ctl] calls of the close answer; only the
    rolling counter keeps the id that was used. *)
Theorem register_then_close (k k' : Kernel) (fd chan_state id : Z)
    (cd : ChannelData) (s s1 : Endpoint) :
  channel_fd_to_id_ s !! fd = None →
  OnNewChannelLocked k fd chan_state s = Some (Ok (id, cd), s1) →
  ∃ s2,
    CloseChannel k' id s1
    = Some (of_errno (k_epoll_ctl k' EPOLL_CTL_DEL fd), s2) ∧
    channels_ s2 = channels_ s ∧
    channel_fd_to_id_ s2 = channel_fd_to_id_ s ∧
    last_channel_id_ s2 = id.
Proof.
  intros Hfresh Hrun.
  pose proof (OnNewChannelLocked_ok _ _ _ _ _ _ _ Hrun)
    as (Hscan%scan_channel_id_free & _).
  rewrite OnNewChannelLocked_run in Hrun. simpl in Hrun.
  destruct (k_epoll_ctl k EPOLL_CTL_ADD fd); [done |].
  destruct (scan_channel_id _ _ _) as [new_id |]; [| done].
  injection Hrun as <- <- <-.
  unfold CloseChannel. rewrite CloseChannelLocked_run. simpl.
  rewrite lookup_insert_eq. simpl. eexists. split; [reflexivity |]. simpl.
  unfold map_emplace. rewrite Hfresh.
  by rewrite !delete_insert_id.
Qed.

Lemma register_then_close_witness :
  ∃ s1 s2,
    OnNewChannelLocked (sample_kernel default_request) 9 5
      sample_endpoint_one_channel = Some (Ok (2, mkChannelData 9 8 5), s1) ∧
    CloseChannel (sample_kernel_epoll_fails default_request) 2 s1
    = Some (ErrorStatus 2%positive, s2) ∧
    channels_ s2 = channels_ sample_endpoint_one_channel ∧
    channel_fd_to_id_ s2 = channel_fd_to_id_ sample_endpoint_one_channel.
Proof.
  destruct (OnNewChannelLocked (sample_kernel default_request) 9 5
              sample_endpoint_one_channel) as [[r s1] |] eqn:Hrun;
    [| vm_compute in Hrun; discriminate].
  assert (Hr : r = Ok (2, mkChannelData 9 8 5)).
  { vm_compute in Hrun. by injection Hrun as <- _. }
  subst r.
  destruct (register_then_close (sample_kernel default_request)
              (sample_kernel_epoll_fails default_request) 9 5 2
              (mkChannelData 9 8 5) sample_endpoint_one_channel s1 eq_refl Hrun)
    as (s2 & Hclose & Hchans & Hfds & _).
  exists s1, s2. split; [reflexivity |]. split; [exact Hclose |].
  split; [exact Hchans | exact Hfds].
Defined.

(** X8: [SetChannel] on an id that is not in the table fails with [EINVAL]
    and changes nothing; on a registered id it succeeds without a system
    call, [GetChannelState] then returns the new state and messages built
    for that channel carry it, while the channel's socket and event
    descriptor, the other channels and the reverse map stay as they were,
    so consistent maps stay consistent. *)
Theorem SetChannel_attaches `{PdxHeaders} (channel_id chan : Z)
    (s : Endpoint) :
  (channels_ s !! channel_id = None →
   SetChannel channel_id chan s = Some (ErrorStatus EINVAL, s)) ∧
  (∀ cd, channels_ s !! channel_id = Some cd →
     ∃ s', SetChannel channel_id chan s = Some (Ok (), s') ∧
           GetChannelState channel_id s' = Some (chan, s') ∧
           GetChannelSocketFd channel_id s' = Some (data_fd cd, s') ∧
           GetChannelEventFd channel_id s' = Some (event_fd cd, s') ∧
           (∀ m s'', BuildCloseMessage channel_id s' = Some (m, s'') →
                     channel (info m) = chan) ∧
           (∀ id', id' ≠ channel_id →
                   channels_ s' !! id' = channels_ s !! id') ∧
           channel_fd_to_id_ s' = channel_fd_to_id_ s ∧
           syscalls s' = syscalls s ∧
           (maps_consistent s → maps_consistent s')).
Proof.
  split.
  - intros Hnone. unfold SetChannel. run_monad. by rewrite Hnone.
  - intros cd Hcd. unfold SetChannel. run_monad. rewrite Hcd.
    eexists. split; [reflexivity |].
    unfold GetChannelState, GetChannelSocketFd, GetChannelEventFd, gets.
    simpl. rewrite !lookup_insert_eq. simpl.
    split; [done |]. split; [done |]. split; [done |]. split.
    { intros m s''. rewrite BuildCloseMessage_run. simpl.
      rewrite lookup_insert_eq. by intros [= <- _]. }
    split; [by intros id' Hne; rewrite lookup_insert_ne |].
    split; [done |]. split; [done |].
    intros [Hfwd Hrev]. split; simpl.
    + intros id cd' Hl. apply lookup_insert_Some in Hl as [[<- <-] | [Hne Hl]].
      * simpl. by apply Hfwd.
      * by apply Hfwd.
    + intros fd id Hl. destruct (Hrev _ _ Hl) as (cd' & Hcd' & Hfd).
      destruct (decide (id = channel_id)) as [-> | Hne].
      * eexists. rewrite lookup_insert_eq. split; [done |]. simpl. congruence.
      * exists cd'. by rewrite lookup_insert_ne.
Qed.

(** ** Replies *)

Lemma kEmptyFileHandle_not_valid `{PdxHeaders} : IsValid kEmptyFileHandle = false.
Proof. apply Z.leb_gt, kEmptyFileHandle_invalid. Qed.

(** X9: a reply on a channel id that is not in the table fails with
    [EBADF], whatever the opcode and the return code, without a system
    call and without touching the message or the endpoint; in particular
    this is what every reply gets once the channel has been closed. *)
Theorem MessageReply_unknown_channel `{PdxHeaders} (k k' : Kernel)
    (message : Message) (return_code : Z) (s : Endpoint) :
  (channels_ s !! cid (info message) = None →
   MessageReply k message return_code s
   = Some ((ErrorStatus EBADF, message), s)) ∧
  ∃ r s1,
    CloseChannel k' (cid (info message)) s = Some (r, s1) ∧
    MessageReply k message return_code s1
    = Some ((ErrorStatus EBADF, message), s1).
Proof.
  assert (Hbad : ∀ s0, channels_ s0 !! cid (info message) = None →
                       MessageReply k message return_code s0
                       = Some ((ErrorStatus EBADF, message), s0)).
  { intros s0 Hnone. unfold MessageReply, GetChannelSocketFd. run_monad.
    by rewrite Hnone, kEmptyFileHandle_not_valid. }
  split; [apply Hbad |].
  unfold CloseChannel. rewrite CloseChannelLocked_run.
  destruct (channels_ s !! cid (info message)) as [cd |] eqn:Hcd.
  - do 2 eexists. split; [reflexivity |]. apply Hbad. apply lookup_delete_eq.
  - do 2 eexists. split; [reflexivity |]. by apply Hbad.
Qed.

Lemma MessageReply_unknown_channel_witness :
  MessageReply (sample_kernel default_request)
    (new_Message (mkMessageInfo 10 (-1) 2 1 20 30 5 0 0 0 0 0 0 [])) 0
    sample_endpoint_one_channel
  = Some ((ErrorStatus EBADF,
           new_Message (mkMessageInfo 10 (-1) 2 1 20 30 5 0 0 0 0 0 0 [])),
          sample_endpoint_one_channel).
Proof.
  apply (MessageReply_unknown_channel (sample_kernel default_request)
           (sample_kernel default_request)
           (new_Message (mkMessageInfo 10 (-1) 2 1 20 30 5 0 0 0 0 0 0 [])) 0
           sample_endpoint_one_channel).
  reflexivity.
Defined.

(** X10: a reply to a [CHANNEL_CLOSE] message, or a reply with a negative
    return code to [CHANNEL_OPEN], closes the channel and writes nothing
    to the socket: the only call is the [EPOLL_CTL_DEL] of the channel
    socket, whose outcome is the status of the reply, both table entries
    are gone and the message is untouched. *)
Theorem MessageReply_closes_channel `{PdxHeaders} (k : Kernel)
    (message : Message) (return_code : Z) (s : Endpoint) (cd : ChannelData) :
  channels_ s !! cid (info message) = Some cd →
  IsValid (data_fd cd) = true →
  op (info message) = CHANNEL_CLOSE ∨
  (op (info message) = CHANNEL_OPEN ∧ return_code < 0) →
  ∃ s',
    MessageReply k message return_code s
    = Some ((of_errno (k_epoll_ctl k EPOLL_CTL_DEL (data_fd cd)), message), s') ∧
    syscalls s' = syscalls s ++ [sys_epoll_ctl EPOLL_CTL_DEL (data_fd cd) 0] ∧
    channels_ s' !! cid (info message) = None ∧
    channel_fd_to_id_ s' !! data_fd cd = None.
Proof.
  intros Hcd Hsock Hop.
  assert (Hrun : MessageReply k message return_code s
                 = (status ← CloseChannel k (cid (info message));
                    mret (status, message)) s).
  { unfold MessageReply, GetChannelSocketFd. run_monad. rewrite Hcd. simpl.
    rewrite Hsock. simpl. destruct Hop as [Hop | [Hop Hneg]].
    - rewrite Hop, Z.eqb_refl. reflexivity.
    - assert (Hclose : (op (info message) =? CHANNEL_CLOSE) = false)
        by (rewrite Hop; apply Z.eqb_neq, opcodes_distinct).
      assert (Hlt : (return_code <? 0) = true) by by apply Z.ltb_lt.
      rewrite Hclose, Hop, Z.eqb_refl, Hlt. reflexivity. }
  rewrite Hrun. unfold mbind, M_bind, CloseChannel.
  rewrite CloseChannelLocked_run, Hcd.
  eexists. split; [reflexivity |]. simpl.
  by rewrite !lookup_delete_eq.
Qed.

Lemma MessageReply_closes_channel_witness :
  ∃ s',
    MessageReply (sample_kernel default_request)
      (new_Message (mkMessageInfo 10 (-1) 1 1 20 30 CHANNEL_OPEN 0 0 0 0 0 0 []))
      (-13) sample_endpoint_one_channel
    = Some ((Ok (),
             new_Message
               (mkMessageInfo 10 (-1) 1 1 20 30 CHANNEL_OPEN 0 0 0 0 0 0 [])),
            s') ∧
    syscalls s' = [sys_epoll_ctl EPOLL_CTL_DEL 7 0] ∧
    channels_ s' !! 1 = None.
Proof.
  assert (Hneg : -13 < 0) by lia.
  destruct (MessageReply_closes_channel (sample_kernel default_request)
              (new_Message
                 (mkMessageInfo 10 (-1) 1 1 20 30 CHANNEL_OPEN 0 0 0 0 0 0 []))
              (-13) sample_endpoint_one_channel (mkChannelData 7 8 0)
              eq_refl eq_refl (or_intror (conj eq_refl Hneg)))
    as (s' & Hrun & Hlog & Hgone & _).
  exists s'. split; [exact Hrun |]. split; [exact Hlog | exact Hgone].
Defined.

(** What [send_reply] does, by the answers of the transport. *)
Lemma send_reply_run (k : Kernel) (sock return_code : Z) (message : Message)
    (s : Endpoint) :
  let payload := response_data (state message) in
  let hdr :=
    mkResponseHeader return_code (Z.of_nat (length payload))
      (rs_file_descriptors (response (state message)))
      (rs_channels (response (state message))) in
  let message' := set_state (set_response hdr (state message)) message in
  let rearm := sys_epoll_ctl EPOLL_CTL_MOD sock oneshot_events in
  send_reply k sock return_code message s =
  match k_send_response k sock hdr with
  | ErrorStatus e =>
      Some ((ErrorStatus e, message'),
            set_syscalls (syscalls s ++ [sys_send_response sock hdr]) s)
  | Ok _ =>
      match payload with
      | [] =>
          Some ((of_errno (k_epoll_ctl k EPOLL_CTL_MOD sock), message'),
                set_syscalls
                  (syscalls s ++ [sys_send_response sock hdr; rearm]) s)
      | _ :: _ =>
          match k_send_payload k sock payload with
          | ErrorStatus e =>
              Some ((ErrorStatus e, message'),
                    set_syscalls
                      (syscalls s ++ [sys_send_response sock hdr;
                                      sys_send_payload sock payload]) s)
          | Ok _ =>
              Some ((of_errno (k_epoll_ctl k EPOLL_CTL_MOD sock), message'),
                    set_syscalls
                      (syscalls s ++ [sys_send_response sock hdr;
                                      sys_send_payload sock payload; rearm]) s)
          end
      end
  end.
Proof.
  simpl. unfold send_reply, SendData_response, SendData_payload,
    ReenableEpollEvent, epoll_ctl.
  run_monad.
  destruct (k_send_response k sock _) as [[] | e]; simpl; [| done].
  destruct (response_data (state message)) as [| b payload]; simpl.
  - by rewrite <- app_assoc.
  - destruct (k_send_payload k sock (b :: payload)) as [[] | e]; simpl.
    + by rewrite <- !app_assoc.
    + by rewrite <- app_assoc.
Qed.

Lemma MessageReply_ordinary_run `{PdxHeaders} (k : Kernel) (message : Message)
    (return_code : Z) (s : Endpoint) (cd : ChannelData) :
  channels_ s !! cid (info message) = Some cd →
  IsValid (data_fd cd) = true →
  op (info message) ≠ CHANNEL_CLOSE → op (info message) ≠ CHANNEL_OPEN →
  MessageReply k message return_code s
  = send_reply k (data_fd cd) return_code message s.
Proof.
  intros Hcd Hsock Hclose%Z.eqb_neq Hopen%Z.eqb_neq.
  unfold MessageReply, GetChannelSocketFd. run_monad.
  rewrite Hcd. simpl. by rewrite Hsock, Hclose, Hopen.
Qed.

Lemma MessageReply_ordinary_sends `{PdxHeaders} (k : Kernel)
    (message : Message) (return_code : Z) (s : Endpoint) (cd : ChannelData) :
  channels_ s !! cid (info message) = Some cd →
  IsValid (data_fd cd) = true →
  op (info message) ≠ CHANNEL_CLOSE → op (info message) ≠ CHANNEL_OPEN →
  let hdr :=
    mkResponseHeader return_code
      (Z.of_nat (length (response_data (state message))))
      (rs_file_descriptors (response (state message)))
      (rs_channels (response (state message))) in
  ∃ status s' calls,
    MessageReply k message return_code s
    = Some ((status, set_state (set_response hdr (state message)) message), s') ∧
    syscalls s' = syscalls s ++ sys_send_response (data_fd cd) hdr :: calls ∧
    table s' = table s.
Proof.
  intros Hcd Hsock Hclose Hopen. simpl.
  rewrite (MessageReply_ordinary_run k message return_code s cd) by done.
  pose proof (send_reply_run k (data_fd cd) return_code message s) as Hrun.
  simpl in Hrun. rewrite Hrun.
  destruct (k_send_response k (data_fd cd) _) as [[] | e].
  - destruct (response_data (state message)) as [| b payload] eqn:Hpayload.
    + do 3 eexists. split; [reflexivity |]. simpl. by repeat split.
    + destruct (k_send_payload k (data_fd cd) (b :: payload)) as [[] | e];
        do 3 eexists; (split; [reflexivity |]); simpl; by repeat split.
  - do 3 eexists. split; [reflexivity |]. simpl. by repeat split.
Qed.

(** X11: a reply to a message whose opcode is neither [CHANNEL_OPEN] nor
    [CHANNEL_CLOSE], on a registered channel, first sends the response
    header with the caller's return code, the length of the queued payload
    and the queued references; it sends the queued payload next exactly
    when the header went out and the payload is not empty, and re-arms the
    channel socket last exactly when every send succeeded.  The status is
    the error of the first failing call, the channel table is unchanged,
    and the message keeps the header that was sent. *)
Theorem MessageReply_ordinary `{PdxHeaders} (k : Kernel) (message : Message)
    (return_code : Z) (s : Endpoint) (cd : ChannelData) :
  channels_ s !! cid (info message) = Some cd →
  IsValid (data_fd cd) = true →
  op (info message) ≠ CHANNEL_CLOSE → op (info message) ≠ CHANNEL_OPEN →
  let sock := data_fd cd in
  let payload := response_data (state message) in
  let hdr :=
    mkResponseHeader return_code (Z.of_nat (length payload))
      (rs_file_descriptors (response (state message)))
      (rs_channels (response (state message))) in
  let rearm := sys_epoll_ctl EPOLL_CTL_MOD sock oneshot_events in
  ∃ status s' calls,
    MessageReply k message return_code s
    = Some ((status, set_state (set_response hdr (state message)) message), s') ∧
    syscalls s' = syscalls s ++ sys_send_response sock hdr :: calls ∧
    table s' = table s ∧
    match k_send_response k sock hdr with
    | ErrorStatus e => status = ErrorStatus e ∧ calls = []
    | Ok _ =>
        if decide (payload = []) then
          calls = [rearm] ∧ status = of_errno (k_epoll_ctl k EPOLL_CTL_MOD sock)
        else
          match k_send_payload k sock payload with
          | ErrorStatus e =>
              status = ErrorStatus e ∧ calls = [sys_send_payload sock payload]
          | Ok _ =>
              calls = [sys_send_payload sock payload; rearm] ∧
              status = of_errno (k_epoll_ctl k EPOLL_CTL_MOD sock)
          end
    end.
Proof.
  intros Hcd Hsock Hclose Hopen. simpl.
  rewrite (MessageReply_ordinary_run k message return_code s cd) by done.
  pose proof (send_reply_run k (data_fd cd) return_code message s) as Hrun.
  simpl in Hrun. rewrite Hrun.
  destruct (k_send_response k (data_fd cd) _) as [[] | e].
  - destruct (response_data (state message)) as [| b payload] eqn:Hpayload.
    + do 3 eexists. split; [reflexivity |]. simpl. by repeat split.
    + destruct (k_send_payload k (data_fd cd) (b :: payload)) as [[] | e];
        do 3 eexists; (split; [reflexivity |]); simpl; by repeat split.
  - do 3 eexists. split; [reflexivity |]. simpl. by repeat split.
Qed.

Lemma MessageReply_ordinary_witness :
  let message :=
    snd (WriteMessageData
           (new_Message (mkMessageInfo 10 (-1) 1 1 20 30 5 0 0 0 0 0 0 []))
           [[x01; x02]; [x03]]) in
  ∃ m' s',
    MessageReply (sample_kernel default_request) message 42
      sample_endpoint_one_channel = Some ((Ok (), m'), s') ∧
    syscalls s'
    = [sys_send_response 7 (mkResponseHeader 42 3 [] []);
       sys_send_payload 7 [x01; x02; x03];
       sys_epoll_ctl EPOLL_CTL_MOD 7 oneshot_events].
Proof.
  intros message.
  destruct (MessageReply_ordinary (sample_kernel default_request) message 42
              sample_endpoint_one_channel (mkChannelData 7 8 0))
    as (status & s' & calls & Hrun & Hlog & _ & Hcalls);
    [reflexivity | reflexivity | discriminate | discriminate |].
  simpl in Hcalls. destruct Hcalls as [-> ->].
  do 2 eexists. split; [exact Hrun |]. exact Hlog.
Defined.

(** X12: [MessageReplyFd] on a registered channel, for an opcode that is
    neither [CHANNEL_OPEN] nor [CHANNEL_CLOSE], never fails before the
    send.  With a descriptor that is valid as an [int] the response header
    carries it behind the references already queued and the return code
    is the 16-bit [FileReference] of its position, which is the position
    itself and resolves to the descriptor while at most [INT16_MAX]
    references were queued before.  With one that is not valid (an
    [unsigned] value of 2^31 or more) nothing is queued and the return code
    sent is the converted number reduced to 16 bits: that negative number
    itself from -32768 on, and otherwise a value that need not be
    negative. *)
Theorem MessageReplyFd_reference `{PdxHeaders} (k : Kernel) (message : Message)
    (push_fd : Z) (s : Endpoint) (cd : ChannelData) :
  channels_ s !! cid (info message) = Some cd →
  IsValid (data_fd cd) = true →
  op (info message) ≠ CHANNEL_CLOSE → op (info message) ≠ CHANNEL_OPEN →
  let old := rs_file_descriptors (response (state message)) in
  ∃ status message' s' hdr calls,
    MessageReplyFd k message push_fd s = Some ((status, message'), s') ∧
    syscalls s' = syscalls s ++ sys_send_response (data_fd cd) hdr :: calls ∧
    (IsValid (to_int32 push_fd) = true →
       rs_file_descriptors hdr = old ++ [to_int32 push_fd] ∧
       ret_code hdr = to_int16 (Z.of_nat (length old)) ∧
       (Z.of_nat (length old) ≤ INT16_MAX →
        ret_code hdr = Z.of_nat (length old) ∧
        rs_file_descriptors hdr !! Z.to_nat (ret_code hdr)
        = Some (to_int32 push_fd))) ∧
    (IsValid (to_int32 push_fd) = false →
       rs_file_descriptors hdr = old ∧
       ret_code hdr = to_int16 (to_int32 push_fd) ∧
       (- 2 ^ 15 ≤ to_int32 push_fd → ret_code hdr = to_int32 push_fd)).
Proof.
  intros Hcd Hsock Hclose Hopen old.
  unfold MessageReplyFd.
  pose proof (Endpoint_PushFileHandle_run message (to_int32 push_fd)) as Hpush.
  unfold Endpoint_PushFileHandle in Hpush.
  destruct (PushFileHandle (to_int32 push_fd) (state message)) as [ref st].
  destruct (IsValid (to_int32 push_fd)) eqn:Hvalid;
    injection Hpush as -> Hst; rewrite Hst.
  - match goal with
    | |- context [MessageReply k ?m ?rc s] =>
        destruct (MessageReply_ordinary_sends k m rc s cd)
          as (status & s' & calls & Hrun & Hlog & _); try done
    end.
    simpl in Hrun, Hlog. fold old in Hrun, Hlog.
    do 5 eexists. split; [exact Hrun |]. split; [exact Hlog |]. simpl.
    split; [| done]. intros _. split; [done |]. split; [done |].
    intros Hlen. rewrite to_int16_small by (unfold INT16_MAX in *; lia).
    split; [done |].
    rewrite Nat2Z.id, lookup_app_r by done. by rewrite Nat.sub_diag.
  - destruct (MessageReply_ordinary_sends k message
                (to_int16 (to_int32 push_fd)) s cd)
      as (status & s' & calls & Hrun & Hlog & _); try done.
    do 5 eexists. split; [exact Hrun |]. split; [exact Hlog |]. simpl.
    split; [done |]. intros _. split; [done |]. split; [done |].
    intros Hlow. apply to_int16_small.
    unfold IsValid in Hvalid. apply Z.leb_gt in Hvalid. lia.
Qed.

Lemma MessageReplyFd_reference_witness :
  let message :=
    push_file_handles [20]
      (new_Message (mkMessageInfo 10 (-1) 1 1 20 30 5 0 0 0 0 0 0 [])) in
  (∃ status message' s' hdr calls,
     MessageReplyFd (sample_kernel default_request) message 21
       sample_endpoint_one_channel = Some ((status, message'), s') ∧
     syscalls s' = sys_send_response 7 hdr :: calls ∧
     rs_file_descriptors hdr = [20; 21] ∧ ret_code hdr = 1) ∧
  (∃ status message' s' hdr calls,
     MessageReplyFd (sample_kernel default_request) message 2147483648
       sample_endpoint_one_channel = Some ((status, message'), s') ∧
     syscalls s' = sys_send_response 7 hdr :: calls ∧
     rs_file_descriptors hdr = [20] ∧ ret_code hdr = 0).
Proof.
  intros message. split.
  - destruct (MessageReplyFd_reference (sample_kernel default_request) message
                21 sample_endpoint_one_channel (mkChannelData 7 8 0))
      as (status & message' & s' & hdr & calls & Hrun & Hlog & Hvalid & _);
      [reflexivity | reflexivity | discriminate | discriminate |].
    destruct (Hvalid eq_refl) as (Hfds & _ & Hret).
    exists status, message', s', hdr, calls.
    split; [exact Hrun |]. split; [exact Hlog |]. split; [exact Hfds |].
    apply Hret. simpl. unfold INT16_MAX. lia.
  - destruct (MessageReplyFd_reference (sample_kernel default_request) message
                2147483648 sample_endpoint_one_channel (mkChannelData 7 8 0))
      as (status & message' & s' & hdr & calls & Hrun & Hlog & _ & Hinvalid);
      [reflexivity | reflexivity | discriminate | discriminate |].
    destruct (Hinvalid eq_refl) as (Hfds & Hret & _).
    exists status, message', s', hdr, calls.
    split; [exact Hrun |]. split; [exact Hlog |]. split; [exact Hfds |].
    exact Hret.
Defined.

(** ** Pushing a new channel *)

(** X13: when [socketpair] and [SO_PASSCRED] succeed, the remote socket and
    the new event descriptor are valid and the local socket has no reverse
    entry, a [PushChannel] that returns has either registered the local
    socket under a fresh id with the caller's channel state, stored that
    id in [*channel_id], queued the pair (remote socket, event descriptor)
    as the last channel reference of the message, returned its index and
    recorded the remote socket for closing after the send; or, when
    [EPOLL_CTL_ADD] failed, returned that error with the message,
    [*channel_id] and the table untouched.  It returns whenever an id is
    free. *)
Theorem PushChannel_registers (k : Kernel) (message : Message)
    (chan_state channel_id : Z) (s : Endpoint) (local_socket remote_socket : Z) :
  k_socketpair k = (None, local_socket, remote_socket) →
  k_setsockopt k local_socket = None →
  IsValid remote_socket = true → IsValid (k_eventfd k) = true →
  channel_fd_to_id_ s !! local_socket = None →
  let old := rs_channels (response (state message)) in
  (∀ r message' id s',
     PushChannel k message chan_state channel_id s
     = Some ((r, message', id), s') →
     match r with
     | Ok ref =>
         k_epoll_ctl k EPOLL_CTL_ADD local_socket = None ∧
         channels_ s !! id = None ∧
         channels_ s'
         = <[id := mkChannelData local_socket (k_eventfd k) chan_state]>
             (channels_ s) ∧
         channel_fd_to_id_ s' = <[local_socket := id]> (channel_fd_to_id_ s) ∧
         ref = to_int32 (Z.of_nat (length old)) ∧
         rs_channels (response (state message'))
         = old ++ [mkChannelInfo remote_socket (k_eventfd k)] ∧
         sockets_to_close (state message')
         = sockets_to_close (state message) ++ [remote_socket]
     | ErrorStatus e =>
         k_epoll_ctl k EPOLL_CTL_ADD local_socket = Some e ∧
         message' = message ∧ id = channel_id ∧ table s' = table s
     end) ∧
  (id_counter_ok s →
   (∃ free, 1 ≤ free ≤ INT32_MAX ∧ channels_ s !! free = None) →
   is_Some (PushChannel k message chan_state channel_id s)).
Proof.
  intros Hpair Hcred Hremote Hevent Hfresh old.
  assert (Hrun : PushChannel k message chan_state channel_id s =
                 match OnNewChannelLocked k local_socket chan_state
                         (set_syscalls
                            (syscalls s ++
                             [sys_socketpair;
                              sys_setsockopt_passcred local_socket]) s) with
                 | Some (ErrorStatus e, s2) =>
                     Some ((ErrorStatus e, message, channel_id), s2)
                 | Some (Ok (id, cd), s2) =>
                     Some ((Ok (to_int32 (Z.of_nat (length old))),
                            set_state
                              (set_sockets_to_close
                                 (sockets_to_close (state message)
                                  ++ [remote_socket])
                                 (set_response
                                    (set_rs_channels
                                       (old ++ [mkChannelInfo remote_socket
                                                  (event_fd cd)])
                                       (response (state message)))
                                    (state message))) message, id), s2)
                 | None => None
                 end).
  { unfold PushChannel, setsockopt_passcred. run_monad. rewrite Hpair. simpl.
    rewrite Hcred. simpl. rewrite <- app_assoc. simpl.
    destruct (OnNewChannelLocked _ _ _ _) as [[[[id cd] | e] s2] |] eqn:Hreg;
      [| done | done].
    pose proof (OnNewChannelLocked_ok _ _ _ _ _ _ _ Hreg) as (_ & -> & _).
    unfold PushChannelHandle. simpl. rewrite Hremote, Hevent. simpl.
    rewrite length_app. simpl.
    replace (Z.of_nat (length (rs_channels (response (state message))) + 1) - 1)
      with (Z.of_nat (length old)) by (unfold old; lia).
    reflexivity. }
  split.
  - intros r message' id s'. rewrite Hrun.
    destruct (OnNewChannelLocked _ _ _ _) as [[[[id' cd] | e] s2] |] eqn:Hreg;
      [| | done]; intros [= <- <- <- <-].
    + pose proof (OnNewChannelLocked_ok _ _ _ _ _ _ _ Hreg)
        as (Hscan%scan_channel_id_free & -> & _).
      rewrite OnNewChannelLocked_run in Hreg. simpl in Hreg, Hscan.
      destruct (k_epoll_ctl k EPOLL_CTL_ADD local_socket); [done |].
      destruct (scan_channel_id _ _ _) as [new_id |]; [| done].
      injection Hreg as <- <-. simpl.
      unfold map_emplace. rewrite Hfresh. by repeat split.
    + pose proof (OnNewChannelLocked_error _ _ _ _ _ _ Hreg) as Htable.
      rewrite OnNewChannelLocked_run in Hreg. simpl in Hreg.
      destruct (k_epoll_ctl k EPOLL_CTL_ADD local_socket) as [e' |].
      * injection Hreg as <- _. by repeat split.
      * by destruct (scan_channel_id _ _ _).
  - intros Hcounter (free & Hfree & Hnone). rewrite Hrun.
    rewrite OnNewChannelLocked_run. simpl.
    destruct (k_epoll_ctl k EPOLL_CTL_ADD local_socket); [by eexists |].
    destruct (scan_channel_id_finds (last_channel_id_ s) free (channels_ s)
                Hcounter Hfree Hnone) as [id ->].
    by eexists.
Qed.

Lemma PushChannel_registers_witness :
  ∃ message' s',
    PushChannel (sample_kernel default_request)
      (new_Message (mkMessageInfo 10 (-1) 1 1 20 30 5 0 0 0 0 0 0 [])) 77 0
      sample_endpoint_one_channel = Some ((Ok 0, message', 2), s') ∧
    channels_ s' !! 2 = Some (mkChannelData 9 8 77) ∧
    rs_channels (response (state message')) = [mkChannelInfo 10 8].
Proof.
  destruct (PushChannel_registers (sample_kernel default_request)
              (new_Message (mkMessageInfo 10 (-1) 1 1 20 30 5 0 0 0 0 0 0 []))
              77 0 sample_endpoint_one_channel 9 10
              eq_refl eq_refl eq_refl eq_refl eq_refl) as [Hreturns _].
  destruct (PushChannel (sample_kernel default_request)
              (new_Message (mkMessageInfo 10 (-1) 1 1 20 30 5 0 0 0 0 0 0 []))
              77 0 sample_endpoint_one_channel)
    as [[[[r message'] id] s'] |] eqn:Hrun; [| vm_compute in Hrun; discriminate].
  specialize (Hreturns r message' id s' eq_refl).
  assert (Hr : r = Ok 0 ∧ id = 2).
  { vm_compute in Hrun. by injection Hrun as <- _ <- _. }
  destruct Hr as [-> ->].
  destruct Hreturns as (_ & _ & Hchans & _ & _ & Href & _).
  exists message', s'. split; [reflexivity |]. split; [| exact Href].
  rewrite Hchans. apply lookup_insert_eq.
Defined.

(** ** Hang-up events *)

Lemma hangup_mask (events : Z) :
  (Z.land events (Z.lor EPOLLRDHUP EPOLLHUP) =? 0)
  = (Z.land events EPOLLRDHUP =? 0) && (Z.land events EPOLLHUP =? 0).
Proof.
  rewrite Z.land_lor_distr_r.
  destruct (Z.eqb_spec (Z.land events EPOLLRDHUP) 0) as [Hr | Hr];
    destruct (Z.eqb_spec (Z.land events EPOLLHUP) 0) as [Hh | Hh]; simpl;
    apply Z.eqb_eq || apply Z.eqb_neq; rewrite Z.lor_eq_0_iff; tauto.
Qed.

(** X14: for an event on a descriptor that is neither the cancel event nor
    the listening socket, [MessageReceive] looks at the hang-up flags
    first: if [EPOLLHUP] or [EPOLLRDHUP] is set, also together with
    [EPOLLIN], it reads nothing from the socket and succeeds with a close
    message for the channel id of that socket (-1 if it has none), leaving
    the channel registered; if neither is set it is exactly
    [ReceiveMessageForChannel] on that socket. *)
Theorem MessageReceive_hangup_first `{PdxHeaders} (k : Kernel) (message : Message)
    (s : Endpoint) (fd events : Z) :
  k_epoll_wait k = wait_event fd events →
  fd ≠ cancel_event_fd_ s → fd ≠ socket_fd_ s →
  let s0 :=
    set_syscalls
      (syscalls s ++ [sys_epoll_wait (if is_blocking_ s then -1 else 0)]) s in
  (Z.land events EPOLLHUP ≠ 0 ∨ Z.land events EPOLLRDHUP ≠ 0 →
   ∃ message' s',
     MessageReceive k message s = Some ((Ok (), message'), s') ∧
     op (info message') = CHANNEL_CLOSE ∧
     cid (info message')
     = match channel_fd_to_id_ s !! fd with Some id => id | None => -1 end ∧
     syscalls s' = syscalls s0 ∧ table s' = table s) ∧
  (Z.land events EPOLLHUP = 0 → Z.land events EPOLLRDHUP = 0 →
   MessageReceive k message s = ReceiveMessageForChannel k fd message s0).
Proof.
  intros Hwait Hcancel%Z.eqb_neq Hlisten%Z.eqb_neq. simpl.
  assert (Hrun : MessageReceive k message s =
                 (if negb (Z.land events (Z.lor EPOLLRDHUP EPOLLHUP) =? 0) then
                    channel_id ← GetChannelId fd;
                    close_message ← BuildCloseMessage channel_id;
                    mret (Ok (), close_message)
                  else ReceiveMessageForChannel k fd message)
                   (set_syscalls
                      (syscalls s ++
                       [sys_epoll_wait (if is_blocking_ s then -1 else 0)]) s)).
  { unfold MessageReceive. run_monad. rewrite Hwait. simpl.
    by rewrite Hcancel, Hlisten. }
  rewrite Hrun, hangup_mask. split.
  - intros Hflags.
    assert (Hmask : (Z.land events EPOLLRDHUP =? 0)
                    && (Z.land events EPOLLHUP =? 0) = false).
    { apply andb_false_iff. destruct Hflags as [Hh | Hr].
      - right. by apply Z.eqb_neq.
      - left. by apply Z.eqb_neq. }
    rewrite Hmask. simpl. unfold GetChannelId. run_monad.
    do 2 eexists. split; [reflexivity |]. by repeat split.
  - intros Hh Hr. by rewrite Hh, Hr.
Qed.

Lemma MessageReceive_hangup_first_witness :
  let k := mkKernel (wait_event 7 (Z.lor EPOLLIN EPOLLHUP)) (7, 1%positive)
             (λ _, None) (None, 9, 10) 8 (λ _ _, None)
             (λ _, Ok default_request) (λ _ _, Ok []) (λ _ _, Ok ())
             (λ _ _, Ok ()) in
  ∃ message' s',
    MessageReceive k
      (new_Message (mkMessageInfo 0 0 0 0 0 0 0 0 0 0 0 0 0 []))
      sample_endpoint_one_channel = Some ((Ok (), message'), s') ∧
    cid (info message') = 1 ∧ syscalls s' = [sys_epoll_wait 0].
Proof.
  intros k.
  destruct (MessageReceive_hangup_first k
              (new_Message (mkMessageInfo 0 0 0 0 0 0 0 0 0 0 0 0 0 []))
              sample_endpoint_one_channel 7 (Z.lor EPOLLIN EPOLLHUP))
    as [Hhang _]; [reflexivity | discriminate | discriminate |].
  destruct Hhang as (message' & s' & Hrun & _ & Hcid & Hlog & _);
    [left; discriminate |].
  exists message', s'. split; [exact Hrun |]. split; [exact Hcid | exact Hlog].
Defined.

(** ** Receiving requests *)

Lemma on_receive_error_ok `{PdxHeaders} (k : Kernel) (channel_id : Z)
    (e : errno) (message message' : Message) (s s' : Endpoint) :
  on_receive_error k channel_id e message s = Some ((Ok (), message'), s') →
  table s' = table s ∧ cid (info message') = channel_id ∧
  op (info message') = CHANNEL_CLOSE ∧
  service (info message') = service_ s ∧ syscalls s' = syscalls s.
Proof.
  unfold on_receive_error. destruct (decide (e = ESHUTDOWN)) as [-> | Hne].
  - unfold mbind, M_bind. rewrite BuildCloseMessage_run.
    by intros [= <- <-].
  - unfold mbind, M_bind.
    by destruct (CloseChannel k channel_id s) as [[r s1] |].
Qed.

(** [ReceiveMessageForChannel], by the answers of the transport. *)
Lemma ReceiveMessageForChannel_cases `{PdxHeaders} (k : Kernel) (fd : Z)
    (message : Message) (s : Endpoint) :
  let channel_id :=
    match channel_fd_to_id_ s !! fd with Some id => id | None => -1 end in
  let log calls := set_syscalls (syscalls s ++ calls) s in
  let rearm := sys_epoll_ctl EPOLL_CTL_MOD fd oneshot_events in
  ReceiveMessageForChannel k fd message s =
  match k_recv_request k fd with
  | ErrorStatus e =>
      on_receive_error k channel_id e message (log [sys_recv_request fd])
  | Ok req =>
      if rq_is_impulse req then
        let built := request_message req channel_id IMPULSE_MESSAGE_ID s in
        match k_epoll_ctl k EPOLL_CTL_MOD fd with
        | Some e =>
            on_receive_error k channel_id e built
              (log [sys_recv_request fd; rearm])
        | None => Some ((Ok (), built), log [sys_recv_request fd; rearm])
        end
      else
        let built :=
          request_message req channel_id (to_int32 (next_message_id_ s)) s in
        let taken calls :=
          set_next_message_id (to_uint32 (next_message_id_ s + 1)) (log calls) in
        if 0 <? rq_send_len req then
          let read := sys_recv_payload fd (rq_send_len req) in
          match k_recv_payload k fd (rq_send_len req) with
          | Ok data =>
              Some ((Ok (),
                     set_state (set_request_data data (state built)) built),
                    taken [sys_recv_request fd; read])
          | ErrorStatus e =>
              on_receive_error k channel_id e
                (set_state
                   (set_request_data
                      (replicate (Z.to_nat (rq_send_len req)) x00)
                      (state built)) built)
                (taken [sys_recv_request fd; read])
          end
        else Some ((Ok (), built), taken [sys_recv_request fd])
  end.
Proof.
  simpl.
  destruct (k_recv_request k fd) as [req | e] eqn:Hreq.
  - destruct (rq_is_impulse req) eqn:Himp.
    + unfold ReceiveMessageForChannel, GetChannelId, ReceiveData_request,
        GetChannelState, ReenableEpollEvent, epoll_ctl.
      run_monad. rewrite Hreq, Himp, andb_false_r. simpl.
      rewrite <- app_assoc. simpl.
      by destruct (k_epoll_ctl k EPOLL_CTL_MOD fd).
    + destruct (Z.ltb_spec 0 (rq_send_len req)) as [Hlen | Hlen].
      * destruct (k_recv_payload k fd (rq_send_len req)) as [data | e] eqn:Hpay.
        -- unfold ReceiveMessageForChannel, GetChannelId, ReceiveData_request,
             ReceiveData_payload, GetNextAvailableMessageId, GetChannelState.
           run_monad. rewrite Hreq, Himp.
           assert (Hpos : (0 <? rq_send_len req) = true) by by apply Z.ltb_lt.
           rewrite Hpos. simpl. rewrite Hpay. simpl.
           by rewrite <- app_assoc.
        -- by rewrite (ReceiveMessageForChannel_payload_error k fd message s
                         req e Hreq Hlen Himp Hpay).
      * unfold ReceiveMessageForChannel, GetChannelId, ReceiveData_request,
          GetNextAvailableMessageId, GetChannelState.
        run_monad. rewrite Hreq, Himp.
        assert (Hpos : (0 <? rq_send_len req) = false) by by apply Z.ltb_ge.
        by rewrite Hpos.
  - by rewrite (ReceiveMessageForChannel_header_error k fd message s e Hreq).
Qed.

(** X15: when the header of a request that is not an impulse arrives and,
    if it declares a positive send length, the payload of exactly that
    length request follows, [ReceiveMessageForChannel] succeeds with a
    message that carries the peer credentials, opcode and lengths of the
    header, the channel id of the socket, a message id taken from the
    counter (which advances by one) and the payload, unread; the payload
    read is issued only for a positive send length, and no [epoll_ctl] is
    issued: the channel is left disarmed and the table unchanged. *)
Theorem receive_request `{PdxHeaders} (k : Kernel) (fd : Z) (message : Message)
    (s : Endpoint) (req : RequestHeader) (data : list byte) :
  k_recv_request k fd = Ok req →
  rq_is_impulse req = false →
  (0 < rq_send_len req → k_recv_payload k fd (rq_send_len req) = Ok data) →
  (rq_send_len req ≤ 0 → data = []) →
  let channel_id :=
    match channel_fd_to_id_ s !! fd with Some id => id | None => -1 end in
  let built :=
    request_message req channel_id (to_int32 (next_message_id_ s)) s in
  ∃ s',
    ReceiveMessageForChannel k fd message s
    = Some ((Ok (), set_state (set_request_data data (state built)) built), s') ∧
    syscalls s'
    = syscalls s ++
      sys_recv_request fd ::
      (if 0 <? rq_send_len req then [sys_recv_payload fd (rq_send_len req)]
       else []) ∧
    next_message_id_ s' = to_uint32 (next_message_id_ s + 1) ∧
    table s' = table s.
Proof.
  intros Hreq Himp Hpay Hempty. simpl.
  pose proof (ReceiveMessageForChannel_cases k fd message s) as Hrun.
  simpl in Hrun. rewrite Hrun, Hreq, Himp.
  destruct (Z.ltb_spec 0 (rq_send_len req)) as [Hlen | Hlen].
  - rewrite (Hpay Hlen). eexists. split; [reflexivity |]. by repeat split.
  - rewrite (Hempty Hlen). eexists. split; [reflexivity |]. by repeat split.
Qed.

Lemma receive_request_witness :
  let req := mkRequestHeader 5 (mkUcred 10 20 30) 2 16 [11] [] [] false in
  let k := mkKernel (wait_event 7 EPOLLIN) (7, 1%positive) (λ _, None)
             (None, 9, 10) 8 (λ _ _, None) (λ _, Ok req)
             (λ _ _, Ok [x0a; x0b]) (λ _ _, Ok ()) (λ _ _, Ok ()) in
  ∃ message' s',
    ReceiveMessageForChannel k 7
      (new_Message (mkMessageInfo 0 0 0 0 0 0 0 0 0 0 0 0 0 []))
      sample_endpoint_one_channel = Some ((Ok (), message'), s') ∧
    info message' = mkMessageInfo 10 (-1) 1 1 20 30 5 0 0 0 2 16 1 [] ∧
    request_data (state message') = [x0a; x0b] ∧
    syscalls s' = [sys_recv_request 7; sys_recv_payload 7 2].
Proof.
  intros req k.
  destruct (receive_request k 7
              (new_Message (mkMessageInfo 0 0 0 0 0 0 0 0 0 0 0 0 0 []))
              sample_endpoint_one_channel req [x0a; x0b] eq_refl eq_refl)
    as (s' & Hrun & Hlog & _).
  - intros _. reflexivity.
  - simpl. lia.
  - do 2 eexists. split; [exact Hrun |]. split; [reflexivity |].
    split; [reflexivity | exact Hlog].
Defined.

(** A receive that succeeds leaves the table alone and tags the message
    with the channel id of the socket. *)
Lemma ReceiveMessageForChannel_ok `{PdxHeaders} (k : Kernel) (fd : Z)
    (message message' : Message) (s s' : Endpoint) :
  ReceiveMessageForChannel k fd message s = Some ((Ok (), message'), s') →
  table s' = table s ∧
  cid (info message')
  = match channel_fd_to_id_ s !! fd with Some id => id | None => -1 end ∧
  service (info message') = service_ s ∧
  ∀ o fd' events,
    sys_epoll_ctl o fd' events ∈ syscalls s' →
    sys_epoll_ctl o fd' events ∈ syscalls s ∨
    (o = EPOLL_CTL_MOD ∧ fd' = fd ∧ events = oneshot_events).
Proof.
  pose proof (ReceiveMessageForChannel_cases k fd message s) as Hrun.
  simpl in Hrun. rewrite Hrun. clear Hrun.
  assert (Hlog : ∀ (l calls : list Syscall),
             l = syscalls s ++ calls →
             (∀ c, c ∈ calls →
                   c = sys_recv_request fd ∨
                   (∃ n, c = sys_recv_payload fd n) ∨
                   c = sys_epoll_ctl EPOLL_CTL_MOD fd oneshot_events) →
             ∀ o fd' events,
               sys_epoll_ctl o fd' events ∈ l →
               sys_epoll_ctl o fd' events ∈ syscalls s ∨
               (o = EPOLL_CTL_MOD ∧ fd' = fd ∧ events = oneshot_events)).
  { intros l calls -> Hcalls o fd' events [Hin | Hin]%elem_of_app;
      [by left |].
    destruct (Hcalls _ Hin) as [Heq | [[n Heq] | Heq]]; simplify_eq. by right. }
  intros Hok.
  repeat case_match; simplify_eq/=;
    try (apply on_receive_error_ok in Hok as (Htable & Hcid & _ & Hsvc & Hsys);
         simpl in Htable, Hsvc, Hsys);
    (split; [done |]; split; [done |]; split; [done |]);
    (eapply Hlog; [first [exact Hsys | reflexivity] |]);
    intros c; rewrite ?elem_of_cons, ?elem_of_nil; intuition eauto.
Qed.

(** X16: a [ReceiveMessageForChannel] that succeeds never changes the
    channel table; the message it hands back is for the channel id of the
    socket (-1 if the socket has none) and the endpoint's service, and the
    only [epoll_ctl] it can have issued is the re-arming of that socket
    (after an impulse). *)
Theorem receive_success_keeps_table `{PdxHeaders} (k : Kernel) (fd : Z)
    (message message' : Message) (s s' : Endpoint) :
  ReceiveMessageForChannel k fd message s = Some ((Ok (), message'), s') →
  table s' = table s ∧
  cid (info message')
  = match channel_fd_to_id_ s !! fd with Some id => id | None => -1 end ∧
  service (info message') = service_ s ∧
  ∀ o fd' events,
    sys_epoll_ctl o fd' events ∈ syscalls s' →
    sys_epoll_ctl o fd' events ∈ syscalls s ∨
    (o = EPOLL_CTL_MOD ∧ fd' = fd ∧ events = oneshot_events).
Proof. apply ReceiveMessageForChannel_ok. Qed.

Lemma receive_success_keeps_table_witness :
  let req := mkRequestHeader 5 (mkUcred 10 20 30) 0 0 [] [] [] true in
  ∃ message' s',
    ReceiveMessageForChannel (sample_kernel req) 7
      (new_Message (mkMessageInfo 0 0 0 0 0 0 0 0 0 0 0 0 0 []))
      sample_endpoint_one_channel = Some ((Ok (), message'), s') ∧
    table s' = table sample_endpoint_one_channel ∧ cid (info message') = 1.
Proof.
  intros req.
  destruct (ReceiveMessageForChannel (sample_kernel req) 7
              (new_Message (mkMessageInfo 0 0 0 0 0 0 0 0 0 0 0 0 0 []))
              sample_endpoint_one_channel) as [[[r message'] s'] |] eqn:Hrun;
    [| vm_compute in Hrun; discriminate].
  assert (Hr : r = Ok ()) by (vm_compute in Hrun; by injection Hrun as <- _ _).
  subst r.
  destruct (receive_success_keeps_table (sample_kernel req) 7 _ message'
              sample_endpoint_one_channel s' Hrun) as (Htable & Hcid & _).
  exists message', s'. split; [reflexivity |]. split; [exact Htable | exact Hcid].
Defined.

(** ** Accepting a connection *)

Lemma AcceptConnection_run `{PdxHeaders} (k : Kernel) (message : Message)
    (s : Endpoint) :
  let fd := fst (k_accept4 k) in
  AcceptConnection k message s =
  if negb (IsValid fd) then
    Some ((ErrorStatus (snd (k_accept4 k)), message),
          set_syscalls (syscalls s ++ [sys_accept4 (socket_fd_ s)]) s)
  else
    match k_setsockopt k fd with
    | Some e =>
        Some ((ErrorStatus e, message),
              set_syscalls
                (syscalls s ++ [sys_accept4 (socket_fd_ s);
                                sys_setsockopt_passcred fd]) s)
    | None =>
        match OnNewChannelLocked k fd 0
                (set_syscalls
                   (syscalls s ++ [sys_accept4 (socket_fd_ s);
                                   sys_setsockopt_passcred fd]) s) with
        | Some (Ok _, s1) => ReceiveMessageForChannel k fd message s1
        | Some (ErrorStatus e, s1) => Some ((ErrorStatus e, message), s1)
        | None => None
        end
    end.
Proof.
  simpl. unfold AcceptConnection, setsockopt_passcred, OnNewChannel.
  run_monad. destruct (negb (IsValid (k_accept4 k).1)); [done |]. simpl.
  destruct (k_setsockopt k (k_accept4 k).1); simpl;
    [by rewrite <- app_assoc |].
  rewrite <- app_assoc. simpl.
  by destruct (OnNewChannelLocked _ _ _ _) as [[[[id cd] | e] s1] |].
Qed.

(** X19: an [AcceptConnection] that succeeds, on an accepted socket without
    a reverse entry, has registered that socket (a valid descriptor) under
    a fresh channel id, with no service state attached, and the message it
    hands back, whether the first request or a close message, is for that
    new id; accepting, enabling credentials and registering come first in
    the log. *)
Theorem AcceptConnection_registers `{PdxHeaders} (k : Kernel)
    (message message' : Message) (s s' : Endpoint) :
  channel_fd_to_id_ s !! fst (k_accept4 k) = None →
  AcceptConnection k message s = Some ((Ok (), message'), s') →
  let fd := fst (k_accept4 k) in
  ∃ id calls,
    IsValid fd = true ∧
    channels_ s !! id = None ∧
    channels_ s' = <[id := mkChannelData fd (k_eventfd k) 0]> (channels_ s) ∧
    channel_fd_to_id_ s' = <[fd := id]> (channel_fd_to_id_ s) ∧
    cid (info message') = id ∧
    syscalls s'
    = syscalls s ++
      [sys_accept4 (socket_fd_ s); sys_setsockopt_passcred fd;
       sys_epoll_ctl EPOLL_CTL_ADD fd oneshot_events; sys_recv_request fd]
      ++ calls.
Proof.
  intros Hfresh. pose proof (AcceptConnection_run k message s) as Hrun.
  simpl in Hrun. rewrite Hrun. clear Hrun. simpl.
  destruct (IsValid (k_accept4 k).1) eqn:Hvalid; simpl; [| done].
  destruct (k_setsockopt k (k_accept4 k).1); [done |].
  rewrite OnNewChannelLocked_run. simpl.
  destruct (k_epoll_ctl k EPOLL_CTL_ADD (k_accept4 k).1); [done |].
  destruct (scan_channel_id _ _ _) as [id |] eqn:Hscan; [| done].
  apply scan_channel_id_free in Hscan.
  unfold map_emplace. rewrite Hfresh.
  intros Hreceive.
  pose proof (ReceiveMessageForChannel_ok _ _ _ _ _ _ Hreceive)
    as ([= Hchans Hfds _] & Hcid & _).
  simpl in Hchans, Hfds, Hcid. rewrite lookup_insert_eq in Hcid.
  assert (Hlog : ∃ calls,
             syscalls s'
             = (((syscalls s ++ [sys_accept4 (socket_fd_ s);
                                 sys_setsockopt_passcred (k_accept4 k).1])
                 ++ [sys_epoll_ctl EPOLL_CTL_ADD (k_accept4 k).1 oneshot_events])
                ++ [sys_recv_request (k_accept4 k).1]) ++ calls).
  { pose proof (ReceiveMessageForChannel_cases k (k_accept4 k).1 message)
      as Hcases.
    simpl in Hcases. rewrite Hcases in Hreceive. clear Hcases.
    simpl in Hreceive.
    repeat case_match; simplify_eq/=;
      try (apply on_receive_error_ok in Hreceive as (_ & _ & _ & _ & ->);
           simpl);
      eexists; rewrite <- ?app_assoc; simpl; f_equal;
      try (instantiate (1 := []); reflexivity); reflexivity. }
  destruct Hlog as [calls Hlog].
  exists id, calls. split; [done |]. split; [done |]. split; [done |].
  split; [done |]. split; [done |].
  rewrite Hlog. rewrite <- !app_assoc. reflexivity.
Qed.

Lemma AcceptConnection_registers_witness :
  let req := mkRequestHeader 5 (mkUcred 10 20 30) 0 0 [] [] [] false in
  ∃ message' s',
    AcceptConnection (sample_kernel req)
      (new_Message (mkMessageInfo 0 0 0 0 0 0 0 0 0 0 0 0 0 []))
      sample_endpoint = Some ((Ok (), message'), s') ∧
    cid (info message') = 1 ∧
    channels_ s' !! 1 = Some (mkChannelData 7 8 0).
Proof.
  intros req.
  destruct (AcceptConnection (sample_kernel req)
              (new_Message (mkMessageInfo 0 0 0 0 0 0 0 0 0 0 0 0 0 []))
              sample_endpoint) as [[[r message'] s'] |] eqn:Hrun;
    [| vm_compute in Hrun; discriminate].
  assert (Hr : r = Ok ()) by (vm_compute in Hrun; by injection Hrun as <- _ _).
  subst r.
  destruct (AcceptConnection_registers (sample_kernel req) _ message'
              sample_endpoint s' eq_refl Hrun)
    as (id & calls & _ & _ & Hchans & _ & Hcid & _).
  assert (Hm : cid (info message') = 1)
    by (clear Hchans Hcid; vm_compute in Hrun; by simplify_eq).
  assert (Hid : id = 1) by congruence.
  exists message', s'. split; [reflexivity |].
  split; [exact Hm |]. rewrite Hchans, Hid. apply lookup_insert_eq.
Defined.

(** ** Invariants of the channel table along calls *)

Section StepInvariant.
Context `{PdxHeaders}.
Variable P : Endpoint → Prop.
Hypothesis P_table : table_property P.
Hypothesis P_close : ∀ k id, preserves P (CloseChannelLocked k id).
Hypothesis P_register :
  ∀ k fd chan_state,
    hoare (λ s, P s ∧ fd_unowned fd s) (OnNewChannelLocked k fd chan_state)
      (λ _, P).

Lemma unowned_table (fd : Z) : table_property (λ s, P s ∧ fd_unowned fd s).
Proof using P_table.
  intros s s' Ht [HP Hf]. split.
  - by eapply P_table.
  - by eapply fd_unowned_table.
Qed.

Lemma hoare_ret_unowned {A} (fd : Z) (a : A) :
  hoare (λ s, P s ∧ fd_unowned fd s) (mret a) (λ _, P).
Proof. intros s a' s' [HP _] [= <- <-]. done. Qed.

Lemma OnNewChannel_preserves (k : Kernel) (fd : Z) :
  hoare (λ s, P s ∧ fd_unowned fd s) (OnNewChannel k fd) (λ _, P).
Proof using P_register.
  unfold OnNewChannel. eapply hoare_bind; [apply P_register |].
  intros r. apply hoare_ret.
Qed.

Lemma AcceptConnection_preserves (k : Kernel) (message : Message) :
  hoare (λ s, P s ∧ fd_unowned (fst (k_accept4 k)) s)
    (AcceptConnection k message) (λ _, P).
Proof using P_table P_close P_register.
  pose proof (unowned_table (fst (k_accept4 k))) as Htable.
  unfold AcceptConnection.
  eapply hoare_bind; [apply preserves_gets |]. intros listen_fd.
  eapply hoare_bind; [by apply preserves_issue |]. intros []; simpl.
  destruct (negb (IsValid (k_accept4 k).1)); [apply hoare_ret_unowned |].
  eapply hoare_bind; [by apply preserves_setsockopt_passcred |].
  intros [e |]; [apply hoare_ret_unowned |].
  eapply hoare_bind; [apply OnNewChannel_preserves |].
  intros [_ | e]; [| apply hoare_ret].
  by apply preserves_ReceiveMessageForChannel.
Qed.

Lemma MessageReceive_preserves (k : Kernel) (message : Message) :
  hoare (λ s, P s ∧ fd_unowned (fst (k_accept4 k)) s)
    (MessageReceive k message) (λ _, P).
Proof using P_table P_close P_register.
  pose proof (unowned_table (fst (k_accept4 k))) as Htable.
  unfold MessageReceive.
  eapply hoare_bind; [apply preserves_gets |]. intros blocking.
  eapply hoare_bind; [by apply preserves_issue |]. intros []; simpl.
  destruct (k_epoll_wait k) as [e | | fd events];
    try apply hoare_ret_unowned.
  eapply hoare_bind; [apply preserves_gets |]. intros cancel_fd.
  eapply hoare_bind; [apply preserves_gets |]. intros listen_fd.
  destruct (fd =? cancel_fd); [apply hoare_ret_unowned |].
  destruct (fd =? listen_fd).
  { eapply hoare_bind; [apply AcceptConnection_preserves |].
    intros [[_ | e] message']; [| apply hoare_ret].
    apply preserves_bind; [| intros; apply preserves_ret].
    by apply preserves_ReenableEpollEvent. }
  eapply hoare_weaken with (P' := P) (Q' := λ _, P);
    [| by intros s [HP _] | done].
  destruct (negb _).
  - unfold GetChannelId. apply preserves_bind; [apply preserves_gets |].
    intros id. apply preserves_bind; [| intros; apply preserves_ret].
    by apply preserves_BuildCloseMessage.
  - by apply preserves_ReceiveMessageForChannel.
Qed.

Lemma PushChannel_preserves (k : Kernel) (message : Message)
    (chan_state channel_id : Z) :
  hoare (λ s, P s ∧ fd_unowned (snd (fst (k_socketpair k))) s)
    (PushChannel k message chan_state channel_id) (λ _, P).
Proof using P_table P_register.
  pose proof (unowned_table (snd (fst (k_socketpair k)))) as Htable.
  unfold PushChannel.
  eapply hoare_bind; [by apply preserves_issue |]. intros []; simpl.
  destruct (k_socketpair k) as [[[e |] local_socket] remote_socket]; simpl;
    [apply hoare_ret_unowned |].
  eapply hoare_bind; [by apply preserves_setsockopt_passcred |].
  intros [e |]; [apply hoare_ret_unowned |].
  eapply hoare_bind; [apply P_register |].
  intros [[new_id cd] | e]; [| apply hoare_ret].
  destruct (PushChannelHandle _ _ _) as [[r | e] st]; apply hoare_ret.
Qed.

(** Every call into the endpoint preserves a property of the channel table
    that closing and registering preserve. *)
Lemma endpoint_step_preserves (s s' : Endpoint) :
  P s → endpoint_step s s' → P s'.
Proof using P_table P_close P_register.
  intros HP Hstep.
  destruct Hstep as [k fd cs r s' Hf Hrun | k fd r s' Hf Hrun
                    | k id r s' Hrun | k id r s' Hrun
                    | k m r s' Hf Hrun | k m cs cid r s' Hf Hrun
                    | k m r s' Hf Hrun | k m rc r s' Hrun].
  - by eapply P_register.
  - by eapply OnNewChannel_preserves.
  - by eapply P_close.
  - by eapply P_close.
  - by eapply AcceptConnection_preserves.
  - by eapply PushChannel_preserves.
  - by eapply MessageReceive_preserves.
  - eapply (preserves_MessageReply k P P_table (P_close k)); [exact HP |].
    exact Hrun.
Qed.

End StepInvariant.

Lemma ids_in_range_table :
  table_property (λ s, ids_in_range s ∧ id_counter_ok s).
Proof.
  intros s s' [= Hc Hf Hl] [Hids Hcounter].
  unfold ids_in_range, id_counter_ok. by rewrite <- Hc, <- Hl.
Qed.

Lemma CloseChannelLocked_ids (k : Kernel) (channel_id : Z) :
  preserves (λ s, ids_in_range s ∧ id_counter_ok s)
    (CloseChannelLocked k channel_id).
Proof.
  intros s a s' [Hids Hcounter] Hrun. split.
  - rewrite CloseChannelLocked_run in Hrun.
    destruct (channels_ s !! channel_id); injection Hrun as <- <-; [| done].
    by apply map_Forall_delete.
  - by eapply CloseChannelLocked_counter.
Qed.

Lemma OnNewChannelLocked_ids (k : Kernel) (fd chan_state : Z) :
  preserves (λ s, ids_in_range s ∧ id_counter_ok s)
    (OnNewChannelLocked k fd chan_state).
Proof.
  intros s a s' [Hids Hcounter] Hrun. split.
  - destruct a as [[id cd] | e].
    + pose proof (OnNewChannelLocked_ok _ _ _ _ _ _ _ Hrun)
        as (Hscan & _ & Hchans & _).
      pose proof (scan_channel_id_spec (S (size (channels_ s)))
                    (last_channel_id_ s) (channels_ s) Hcounter) as Hspec.
      rewrite Hscan in Hspec. destruct Hspec as (j & _ & -> & _).
      unfold ids_in_range. rewrite Hchans.
      apply map_Forall_insert_2; [apply tried_id_range | done].
    + apply OnNewChannelLocked_error in Hrun as [= Hc _ _].
      unfold ids_in_range. by rewrite Hc.
  - by eapply OnNewChannelLocked_counter.
Qed.

(** X17: in every state reached by calls into the endpoint from a state
    with consistent maps, ids in [1, INT32_MAX] and the counter in range,
    all channel ids are still in [1, INT32_MAX]; hence [GetChannelId]
    answers -1 exactly for the sockets that have no channel, and for the
    others an id in that range whose channel owns the socket. *)
Theorem channel_ids_in_range `{PdxHeaders} (s0 s : Endpoint) :
  maps_consistent s0 → ids_in_range s0 → id_counter_ok s0 →
  rtc endpoint_step s0 s →
  ids_in_range s ∧ id_counter_ok s ∧
  ∀ fd,
    (GetChannelId fd s = Some (-1, s) ↔ channel_fd_to_id_ s !! fd = None) ∧
    (∀ id, channel_fd_to_id_ s !! fd = Some id →
           GetChannelId fd s = Some (id, s) ∧ 1 ≤ id ≤ INT32_MAX ∧
           ∃ cd, channels_ s !! id = Some cd ∧ data_fd cd = fd).
Proof.
  intros Hc0 Hids0 Hcounter0 Hsteps.
  assert (Hinv : maps_consistent s ∧ ids_in_range s ∧ id_counter_ok s).
  { induction Hsteps as [| s1 s2 s3 Hstep _ IH]; [done |].
    apply IH.
    - by eapply endpoint_step_consistent.
    - eapply (endpoint_step_preserves (λ s, ids_in_range s ∧ id_counter_ok s));
        [apply ids_in_range_table | apply CloseChannelLocked_ids | |
         split; [exact Hids0 | exact Hcounter0] | exact Hstep].
      intros k fd cs. eapply hoare_weaken;
        [apply OnNewChannelLocked_ids | by intros s' [HP _] | done].
    - eapply (endpoint_step_preserves (λ s, ids_in_range s ∧ id_counter_ok s));
        [apply ids_in_range_table | apply CloseChannelLocked_ids | |
         split; [exact Hids0 | exact Hcounter0] | exact Hstep].
      intros k fd cs. eapply hoare_weaken;
        [apply OnNewChannelLocked_ids | by intros s' [HP _] | done]. }
  destruct Hinv as ([Hfwd Hrev] & Hids & Hcounter).
  split; [done |]. split; [done |].
  assert (Hrange : ∀ fd id, channel_fd_to_id_ s !! fd = Some id →
                            1 ≤ id ≤ INT32_MAX ∧
                            ∃ cd, channels_ s !! id = Some cd ∧ data_fd cd = fd).
  { intros fd id Hl. destruct (Hrev _ _ Hl) as (cd & Hcd & Hfd).
    split; [by apply (Hids id cd) | by exists cd]. }
  intros fd. unfold GetChannelId, gets. split.
  - destruct (channel_fd_to_id_ s !! fd) as [id |] eqn:Hl; [| done].
    destruct (Hrange fd id Hl) as [Hid _].
    split; [| done]. intros [= ->]. lia.
  - intros id Hl. rewrite Hl. split; [done |]. by apply Hrange.
Qed.

Lemma sample_endpoint_one_channel_consistent :
  maps_consistent sample_endpoint_one_channel.
Proof.
  split; simpl.
  - intros id cd [<- <-]%lookup_singleton_Some. reflexivity.
  - intros fd id [<- <-]%lookup_singleton_Some. by eexists.
Qed.

Lemma channel_ids_in_range_witness :
  ∃ s, rtc endpoint_step sample_endpoint_one_channel s ∧
       GetChannelId 9 s = Some (2, s) ∧ GetChannelId 7 s = Some (-1, s).
Proof.
  assert (Hrun : ∃ s, rtc endpoint_step sample_endpoint_one_channel s ∧
                      channel_fd_to_id_ s !! 9 = Some 2 ∧
                      channel_fd_to_id_ s !! 7 = None).
  { eexists. split.
    - eapply rtc_l.
      { eapply (step_PushChannel _ (sample_kernel default_request)
                  (new_Message (mkMessageInfo 1 1 1 1 1 1 7 0 0 0 0 0 0 []))
                  0 0).
        - apply (bool_decide_unpack _). vm_compute. exact I.
        - vm_compute. reflexivity. }
      eapply rtc_l.
      { eapply (step_CloseChannel _ (sample_kernel default_request) 1).
        vm_compute. reflexivity. }
      apply rtc_refl.
    - split; vm_compute; reflexivity. }
  destruct Hrun as (s & Hsteps & H9 & H7).
  assert (Hids : ids_in_range sample_endpoint_one_channel).
  { intros id cd Hl. simpl in Hl.
    apply lookup_singleton_Some in Hl as [<- <-]. unfold INT32_MAX. lia. }
  assert (Hcounter : id_counter_ok sample_endpoint_one_channel)
    by (unfold id_counter_ok, INT32_MAX; simpl; lia).
  destruct (channel_ids_in_range sample_endpoint_one_channel s
              sample_endpoint_one_channel_consistent Hids Hcounter Hsteps)
    as (_ & _ & Hlookup).
  exists s. split; [exact Hsteps |]. split.
  - destruct (Hlookup 9) as [_ Hsome]. by destruct (Hsome 2 H9).
  - destruct (Hlookup 7) as [Hnone _]. by apply Hnone.
Defined.

(** Consistent maps pair their entries off one to one. *)
Lemma consistent_maps_size (chans : gmap Z ChannelData) :
  ∀ fds : gmap Z Z,
    (∀ id cd, chans !! id = Some cd → fds !! data_fd cd = Some id) →
    (∀ fd id, fds !! fd = Some id →
              ∃ cd, chans !! id = Some cd ∧ data_fd cd = fd) →
    size chans = size fds.
Proof.
  induction chans as [| id cd chans Hnone IH] using map_ind;
    intros fds Hfwd Hrev.
  - rewrite map_size_empty. symmetry. apply map_size_empty_iff.
    apply map_empty. intros fd.
    destruct (fds !! fd) as [id |] eqn:Hl; [| done].
    destruct (Hrev _ _ Hl) as (cd & Hcd & _). by rewrite lookup_empty in Hcd.
  - assert (Hentry : fds !! data_fd cd = Some id)
      by (apply Hfwd; apply lookup_insert_eq).
    rewrite map_size_insert_None by done.
    rewrite <- (insert_id fds (data_fd cd) id Hentry).
    rewrite <- insert_delete_eq.
    rewrite map_size_insert_None by apply lookup_delete_eq.
    f_equal. apply IH.
    + intros id' cd' Hl.
      assert (Hne : id' ≠ id) by (intros ->; congruence).
      assert (Hl' : fds !! data_fd cd' = Some id')
        by (apply Hfwd; by rewrite lookup_insert_ne).
      rewrite lookup_delete_ne; [done |]. intros Heq.
      rewrite Heq in Hentry. congruence.
    + intros fd id' [Hne Hl]%lookup_delete_Some.
      destruct (Hrev _ _ Hl) as (cd' & Hcd' & Hfd).
      apply lookup_insert_Some in Hcd' as [[<- <-] | [Hne' Hcd']]; [done |].
      by exists cd'.
Qed.

(** X18: in every state reached by calls into the endpoint from a state
    with consistent maps, [channels_] and [channel_fd_to_id_] have the same
    number of entries, and the two table operations keep the count in
    step: a successful [OnNewChannelLocked] on a socket without reverse
    entry adds exactly one entry to each map, and a [CloseChannelLocked]
    of a registered id removes exactly one entry from each, whatever
    [epoll_ctl] answers. *)
Theorem channel_maps_same_size `{PdxHeaders} (s0 s : Endpoint) :
  maps_consistent s0 → rtc endpoint_step s0 s →
  size (channels_ s) = size (channel_fd_to_id_ s) ∧
  (∀ (k : Kernel) (fd chan_state id : Z) (cd : ChannelData) (s' : Endpoint),
     channel_fd_to_id_ s !! fd = None →
     OnNewChannelLocked k fd chan_state s = Some (Ok (id, cd), s') →
     size (channels_ s') = S (size (channels_ s)) ∧
     size (channel_fd_to_id_ s') = S (size (channel_fd_to_id_ s))) ∧
  (∀ (k : Kernel) (id : Z) (status : Status ()) (s' : Endpoint),
     is_Some (channels_ s !! id) →
     CloseChannelLocked k id s = Some (status, s') →
     S (size (channels_ s')) = size (channels_ s) ∧
     S (size (channel_fd_to_id_ s')) = size (channel_fd_to_id_ s)).
Proof.
  intros Hc0 Hsteps.
  assert (Hinv : maps_consistent s).
  { induction Hsteps as [| s1 s2 s3 Hstep _ IH]; [done |].
    apply IH. by eapply endpoint_step_consistent. }
  destruct Hinv as [Hfwd Hrev].
  split; [by apply consistent_maps_size |]. split.
  - intros k fd chan_state id cd s' Hfresh Hrun.
    rewrite OnNewChannelLocked_run in Hrun. simpl in Hrun.
    destruct (k_epoll_ctl k EPOLL_CTL_ADD fd); [done |].
    destruct (scan_channel_id _ _ _) as [new_id |] eqn:Hscan; [| done].
    apply scan_channel_id_free in Hscan.
    injection Hrun as <- <- <-.
    unfold map_emplace. simpl. rewrite Hfresh.
    by rewrite !map_size_insert_None.
  - intros k id status s' [cd Hcd] Hrun.
    rewrite CloseChannelLocked_run, Hcd in Hrun.
    injection Hrun as <- <-. simpl.
    pose proof (Hfwd _ _ Hcd) as Hentry. split.
    + rewrite <- (insert_id (channels_ s) id cd Hcd) at 2.
      rewrite <- insert_delete_eq.
      by rewrite map_size_insert_None by apply lookup_delete_eq.
    + rewrite <- (insert_id (channel_fd_to_id_ s) (data_fd cd) id Hentry) at 2.
      rewrite <- insert_delete_eq.
      by rewrite map_size_insert_None by apply lookup_delete_eq.
Qed.

Lemma channel_maps_same_size_witness :
  ∃ s, rtc endpoint_step sample_endpoint_one_channel s ∧
       size (channels_ s) = 2%nat ∧ size (channel_fd_to_id_ s) = 2%nat.
Proof.
  assert (Hrun : ∃ s, rtc endpoint_step sample_endpoint_one_channel s ∧
                      size (channels_ s) = 2%nat).
  { eexists. split.
    - eapply rtc_l.
      { eapply (step_PushChannel _ (sample_kernel default_request)
                  (new_Message (mkMessageInfo 1 1 1 1 1 1 7 0 0 0 0 0 0 []))
                  0 0).
        - apply (bool_decide_unpack _). vm_compute. exact I.
        - vm_compute. reflexivity. }
      apply rtc_refl.
    - vm_compute. reflexivity. }
  destruct Hrun as (s & Hsteps & Hsize).
  destruct (channel_maps_same_size sample_endpoint_one_channel s
              sample_endpoint_one_channel_consistent Hsteps) as (Hsame & _).
  exists s. split; [exact Hsteps |]. split; [exact Hsize |].
  by rewrite <- Hsame.
Defined.
